(** * A shallow embedding of [game.py]: board state, move rules and the
      turn simulator, with the properties of its specification.

    Python integers are modelled by [Z] ([//] and [%] by a positive divisor
    are [Z.div] and [Z.modulo], both flooring).  The position array is a
    NumPy integer array, modelled by [list Z]; Python sets are [gset]s;
    exceptions are an explicit error result. *)

From Stdlib Require Import ZArith Lia.
From stdpp Require Import base gmap sets list strings.

Local Open Scope Z_scope.

(** ** Exceptions and results *)

Definition Action : Type := Z * Z.

Inductive exn : Type :=
| IndexError
| OverflowError
| UnboundLocalError
| ValueError (action : Action) (player_idx : Z).

(** The outcome of running a piece of code: a value, a raised exception,
    or a loop that is still running when the fuel of the model is spent. *)
Inductive result (A : Type) : Type :=
| Ok (a : A)
| Raise (e : exn)
| OutOfFuel.

Arguments Ok {A} a.
Arguments Raise {A} e.
Arguments OutOfFuel {A}.

#[global] Instance result_ret : MRet result := λ A a, Ok a.

#[global] Instance result_bind : MBind result := λ A B k r,
  match r with
  | Ok a => k a
  | Raise e => Raise e
  | OutOfFuel => OutOfFuel
  end.

Definition or_raise {A} (e : exn) (o : option A) : result A :=
  match o with
  | Some a => Ok a
  | None => Raise e
  end.

(** ** Python indexing *)

(** The position that index [i] denotes in a sequence of length [len]:
    a negative index counts from the end, anything else out of range has
    no position. *)
Definition py_index (len : nat) (i : Z) : option nat :=
  if bool_decide (0 ≤ i < Z.of_nat len) then Some (Z.to_nat i)
  else if bool_decide (- Z.of_nat len ≤ i < 0) then Some (Z.to_nat (Z.of_nat len + i))
  else None.

(** [l[i]] *)
Definition py_get {A} (l : list A) (i : Z) : result A :=
  or_raise IndexError (n ← py_index (length l) i; l !! n).

(** [l[i] = x] *)
Definition py_set {A} (l : list A) (i : Z) (x : A) : result (list A) :=
  or_raise IndexError ((λ n, <[n:=x]> l) <$> py_index (length l) i).

(** A slice bound, clamped the way Python clamps it. *)
Definition py_clamp (len : nat) (i : Z) : nat :=
  if bool_decide (i < 0)
  then Z.to_nat (Z.max 0 (Z.of_nat len + i))
  else Z.to_nat (Z.min (Z.of_nat len) i).

(** [l[a:b]] *)
Definition py_slice {A} (l : list A) (a b : Z) : list A :=
  let start := py_clamp (length l) a in
  let stop := py_clamp (length l) b in
  take (stop - start)%nat (drop start l).

(** ** BoardState *)

Definition N_ROWS : Z := 8.
Definition N_COLS : Z := 7.

Record BoardState : Type := mkBoardState {
  state : list Z;
  decode_state : list (Z * Z)
}.

Definition encode_single_pos (cr : Z * Z) : Z :=
  let '(col, row) := cr in
  row * N_COLS + col.

Definition decode_single_pos (n : Z) : Z * Z :=
  let row := n `div` N_COLS in
  let col := n `mod` N_COLS in
  (col, row).

Definition initial_positions : list Z :=
  [1; 2; 3; 4; 5; 3; 50; 51; 52; 53; 54; 52].

(** [BoardState.__init__] *)
Definition BoardState_init : BoardState :=
  {| state := initial_positions;
     decode_state := decode_single_pos <$> initial_positions |}.

(** [BoardState.make_state] *)
Definition make_state (bs : BoardState) : list (Z * Z) :=
  decode_single_pos <$> state bs.

(** The array holds 64-bit integers: storing anything else raises. *)
Definition int64 (v : Z) : bool :=
  bool_decide (- 2 ^ 63 ≤ v < 2 ^ 63).

(** [BoardState.update].  The assignment to the array resolves the index
    first, and raises [IndexError] on a bad one, before it converts the
    value, and raises [OverflowError] on one that does not fit. *)
Definition BoardState_update (bs : BoardState) (idx val : Z) : result BoardState :=
  i ← or_raise IndexError (py_index (length (state bs)) idx);
  st ← (if int64 val then Ok (<[i:=val]> (state bs)) else Raise OverflowError);
  n ← py_get st idx;
  ds ← py_set (decode_state bs) idx (decode_single_pos n);
  Ok {| state := st; decode_state := ds |}.

(** [BoardState.is_termination_state] *)
Definition is_termination_state (bs : BoardState) : result bool :=
  white_ball_pos ← py_get (state bs) 5;
  black_ball_pos ← py_get (state bs) 11;
  let white_ball_coord := decode_single_pos white_ball_pos in
  let black_ball_coord := decode_single_pos black_ball_pos in
  if bool_decide (white_ball_coord.2 = 7) then Ok true
  else if bool_decide (black_ball_coord.2 = 0) then Ok true
  else Ok false.

(** [BoardState.is_valid] *)
Definition is_valid (bs : BoardState) : bool :=
  if negb (forallb (λ pos, bool_decide (0 ≤ pos ≤ 55)) (state bs)) then false
  else if negb (size (list_to_set (C := gset Z) (state bs)) =? length (state bs))%nat then false
  else true.

(** The decoded cache mirrors the positions. *)
Definition cache_coherent (bs : BoardState) : Prop :=
  decode_state bs = decode_single_pos <$> state bs.

(** ** Rules *)

Definition in_bounds (col row : Z) : bool :=
  bool_decide (0 ≤ col < N_COLS) && bool_decide (0 ≤ row < N_ROWS).

Definition possible_moves (col row : Z) : list (Z * Z) :=
  [ (col + 2, row + 1); (col + 2, row - 1);
    (col - 2, row + 1); (col - 2, row - 1);
    (col + 1, row + 2); (col + 1, row - 2);
    (col - 1, row + 2); (col - 1, row - 2) ].

(** The body of the [for move in possible_moves] loop. *)
Definition piece_move_body (bs : BoardState) (valid_moves : gset Z) (move : Z * Z) : gset Z :=
  let '(move_col, move_row) := move in
  if in_bounds move_col move_row then
    let encoded_pos := encode_single_pos move in
    if bool_decide (encoded_pos ∉ state bs) then {[encoded_pos]} ∪ valid_moves
    else valid_moves
  else valid_moves.

(** [Rules.single_piece_actions] *)
Definition single_piece_actions (bs : BoardState) (piece_idx : Z) : result (gset Z) :=
  current_pos ← py_get (decode_state bs) piece_idx;
  let '(col, row) := current_pos in
  Ok (foldl (piece_move_body bs) ∅ (possible_moves col row)).

Definition directions : list (Z * Z) :=
  [ (1, 0); (-1, 0);
    (0, 1); (0, -1);
    (1, 1); (1, -1); (-1, 1); (-1, -1) ].

(** The [while] loop of [single_ball_actions] along one direction; each
    unit of fuel pays for one test of the loop condition. *)
Fixpoint ball_ray (fuel : nat) (bs : BoardState) (player_idx dcol drow : Z)
    (cur_col cur_row : Z) (valid_moves : gset Z) : result (gset Z) :=
  match fuel with
  | O => OutOfFuel
  | S fuel =>
    if in_bounds cur_col cur_row then
      let encoded_pos := encode_single_pos (cur_col, cur_row) in
      if bool_decide (encoded_pos ∈ state bs) then Ok valid_moves
      else
        let valid_moves :=
          if bool_decide (encoded_pos ∈ py_slice (state bs) (player_idx * 6) ((player_idx + 1) * 6))
          then {[encoded_pos]} ∪ valid_moves
          else valid_moves in
        ball_ray fuel bs player_idx dcol drow (cur_col + dcol) (cur_row + drow) valid_moves
    else Ok valid_moves
  end.

(** A [for] loop whose body may raise. *)
Fixpoint for_each {A B} (body : B → A → result B) (l : list A) (acc : B) : result B :=
  match l with
  | [] => Ok acc
  | x :: l => acc ← body acc x; for_each body l acc
  end.

(** [5 if player_idx == 0 else 11] *)
Definition ball_idx (player_idx : Z) : Z :=
  if bool_decide (player_idx = 0) then 5 else 11.

(** [Rules.single_ball_actions], every ray being given [fuel]. *)
Definition single_ball_actions_fuel (fuel : nat) (bs : BoardState) (player_idx : Z)
    : result (gset Z) :=
  ball_pos ← py_get (decode_state bs) (ball_idx player_idx);
  let '(col, row) := ball_pos in
  for_each
    (λ valid_moves direction,
       let '(dcol, drow) := direction in
       ball_ray fuel bs player_idx dcol drow (col + dcol) (row + drow) valid_moves)
    directions ∅.

(** A ray leaves the board after at most [max N_COLS N_ROWS] squares, so
    this much fuel, and one more test of the condition, is never spent
    (see [single_ball_actions_fuel_enough]). *)
Definition ray_fuel : nat := Z.to_nat (Z.max N_COLS N_ROWS) + 1.

Definition single_ball_actions (bs : BoardState) (player_idx : Z) : result (gset Z) :=
  single_ball_actions_fuel ray_fuel bs player_idx.

(** The number of squares from [(col, row)] to the edge of the board along
    a direction, the square itself included. *)
Definition steps_left (dcol drow col row : Z) : Z :=
  if bool_decide (dcol = 1) then N_COLS - col
  else if bool_decide (dcol = -1) then col + 1
  else if bool_decide (drow = 1) then N_ROWS - row
  else row + 1.

(** ** GameSimulator *)

Section Simulator.
(** The players are external: [W] is whatever state they keep between
    calls, [V] the value they report next to their action. *)
Context {W V : Type}.

Definition Policy : Type := W → list (Z * Z) → (Action * V) * W.

Record GameSimulator : Type := mkGameSimulator {
  game_state : BoardState;
  current_round : Z;
  players : list Policy
}.

(** [GameSimulator.__init__] *)
Definition GameSimulator_init (players : list Policy) : GameSimulator :=
  {| game_state := BoardState_init; current_round := -1; players := players |}.

(** [GameSimulator.generate_valid_actions] *)
Definition generate_valid_actions (self : GameSimulator) (player_idx : Z)
    : result (gset Action) :=
  let offset_idx := player_idx * 6 in
  valid_actions ←
    for_each
      (λ valid_actions i,
         let piece_idx := offset_idx + i in
         piece_actions ← single_piece_actions (game_state self) piece_idx;
         Ok (set_map (D := gset Action) (λ action, (i, action)) piece_actions ∪ valid_actions))
      [0; 1; 2; 3; 4] ∅;
  ball_actions ← single_ball_actions (game_state self) player_idx;
  Ok (set_map (D := gset Action) (λ action, (5, action)) ball_actions ∪ valid_actions).

(** [GameSimulator.validate_action] *)
Definition validate_action (self : GameSimulator) (action : Action) (player_idx : Z)
    : result bool :=
  valid_actions ← generate_valid_actions self player_idx;
  if bool_decide (action ∉ valid_actions) then Raise (ValueError action player_idx)
  else Ok true.

(** [GameSimulator.update] *)
Definition update (self : GameSimulator) (action : Action) (player_idx : Z)
    : result GameSimulator :=
  let offset_idx := player_idx * 6 in
  let '(idx, pos) := action in
  bs ← BoardState_update (game_state self) (offset_idx + idx) pos;
  Ok {| game_state := bs; current_round := current_round self; players := players self |}.

(** What [run] prints at each turn. *)
Record LogLine : Type := mkLogLine {
  log_round : Z;
  log_player : Z;
  log_state : list Z;
  log_action : Action;
  log_value : V
}.

Definition Outcome : Type := Z * string * string.

Definition emit {A} (line : LogLine) (r : list LogLine * A) : list LogLine * A :=
  (line :: r.1, r.2).

(** The loop of [GameSimulator.run], entered with the local [player_idx]
    unbound ([None]) or bound by the previous iteration.  It gives the
    lines printed and how the call ends; each unit of fuel pays for one
    turn. *)
Fixpoint run_loop (fuel : nat) (self : GameSimulator) (player_idx : option Z) (w : W)
    : list LogLine * result Outcome :=
  match is_termination_state (game_state self) with
  | Ok false =>
    match fuel with
    | O => ([], OutOfFuel)
    | S fuel =>
      let self := {| game_state := game_state self;
                     current_round := current_round self + 1;
                     players := players self |} in
      let player_idx := current_round self `mod` 2 in
      match py_get (players self) player_idx with
      | Ok player =>
        let '((action, value), w) := player w (make_state (game_state self)) in
        emit {| log_round := current_round self; log_player := player_idx;
                log_state := state (game_state self);
                log_action := action; log_value := value |}
          match validate_action self action player_idx with
          | Ok false =>
            if bool_decide (player_idx = 0)
            then ([], Ok (current_round self, "BLACK", "White provided an invalid action"))
            else ([], Ok (current_round self, "WHITE", "Black probided an invalid action"))
          | Ok true =>
            match update self action player_idx with
            | Ok self => run_loop fuel self (Some player_idx) w
            | Raise e => ([], Raise e)
            | OutOfFuel => ([], OutOfFuel)
            end
          | Raise e => ([], Raise e)
          | OutOfFuel => ([], OutOfFuel)
          end
      | Raise e => ([], Raise e)
      | OutOfFuel => ([], OutOfFuel)
      end
    end
  | Ok true =>
    match player_idx with
    | Some player_idx =>
      if bool_decide (player_idx = 0)
      then ([], Ok (current_round self, "WHITE", "No issues"))
      else ([], Ok (current_round self, "BLACK", "No issues"))
    | None => ([], Raise UnboundLocalError)
    end
  | Raise e => ([], Raise e)
  | OutOfFuel => ([], OutOfFuel)
  end.

(** [GameSimulator.run] *)
Definition run (fuel : nat) (self : GameSimulator) (w : W) : list LogLine * result Outcome :=
  run_loop fuel self None w.

End Simulator.

Arguments GameSimulator : clear implicits.
Arguments Policy : clear implicits.
Arguments LogLine : clear implicits.

(** ** Colours and sample states *)



(** A board state built from a position array, as [make_state] decodes it. *)
Definition board_of (positions : list Z) : BoardState :=
  {| state := positions; decode_state := decode_single_pos <$> positions |}.

(** A policy that proposes the same action whatever the board. *)
Definition constant_policy (action : Action) : Policy unit unit :=
  λ w _, ((action, tt), w).

(** ** Players that answer alike *)

(** Two policies, each with its own kind of internal state, answer alike
    when, from internal states related by [R] and on equal board snapshots,
    they return the same action and value and leave internal states related
    by [R] again. *)
Definition answer_alike {W1 W2 V : Type} (R : W1 → W2 → Prop)
    (p1 : Policy W1 V) (p2 : Policy W2 V) : Prop :=
  ∀ w1 w2 snapshot,
    R w1 w2 →
    (p1 w1 snapshot).1 = (p2 w2 snapshot).1
    ∧ R (p1 w1 snapshot).2 (p2 w2 snapshot).2.


(** A fresh game in which player 0 always proposes to move its first
    runner to square 14 and player 1 its carrier to square 3. *)
Definition opening_game : GameSimulator unit unit :=
  GameSimulator_init [constant_policy (0, 14); constant_policy (5, 3)].

(** A policy that counts its calls and always proposes the same action. *)
Definition counting_policy (action : Action) : Policy nat unit :=
  λ n _, ((action, tt), S n).

(** ** Engine updates *)

(** One engine update: some player's action, drawn from the actions that
    [generate_valid_actions] gives for that player, is applied by [update]. *)
Inductive engine_step {W V : Type} (self self' : GameSimulator W V) : Prop :=
| EngineStep (player_idx : Z) (valid_actions : gset Action) (action : Action) :
    generate_valid_actions self player_idx = Ok valid_actions →
    action ∈ valid_actions →
    update self action player_idx = Ok self' →
    engine_step self self'.

(** ** The carrier rule as the specification words it *)

(** The squares of the five runners of a player. *)
Definition own_runners (bs : BoardState) (player_idx : Z) : list Z :=
  take 5 (drop (Z.to_nat (player_idx * 6)) (state bs)).

(** [dest] is a legal carrier destination in the specification's words: it
    lies [k] steps from the carrier along a queen direction, on the board,
    no square strictly between the two is occupied, and one of the player's
    own runners stands on it. *)
Definition spec_carrier_destination (bs : BoardState) (player_idx : Z) (dest : Z) : Prop :=
  ∃ col row dcol drow k,
    py_get (decode_state bs) (ball_idx player_idx) = Ok (col, row)
    ∧ (dcol, drow) ∈ directions
    ∧ 1 ≤ k
    ∧ in_bounds (col + k * dcol) (row + k * drow) = true
    ∧ dest = encode_single_pos (col + k * dcol, row + k * drow)
    ∧ (∀ j, 1 ≤ j < k → encode_single_pos (col + j * dcol, row + j * drow) ∉ state bs)
    ∧ dest ∈ own_runners bs player_idx.

(** ** The runner rule as the specification words it *)

Definition knight_offsets : list (Z * Z) :=
  [ (2, 1); (2, -1); (-2, 1); (-2, -1); (1, 2); (1, -2); (-1, 2); (-1, -2) ].

(** [dest] is a legal destination of the runner standing on square [pos]:
    a knight offset away, on the board, and occupied by no piece. *)
Definition spec_runner_destination (bs : BoardState) (pos : Z) (dest : Z) : Prop :=
  ∃ dcol drow,
    (dcol, drow) ∈ knight_offsets
    ∧ in_bounds ((decode_single_pos pos).1 + dcol) ((decode_single_pos pos).2 + drow) = true
    ∧ dest = encode_single_pos ((decode_single_pos pos).1 + dcol, (decode_single_pos pos).2 + drow)
    ∧ dest ∉ state bs.

(** * Properties *)

(** ** Results and Python indexing *)

Lemma Ok_inj {A} (a b : A) : Ok a = Ok b → a = b.
Proof. by intros [= ->]. Qed.

Lemma bind_Ok {A B} (a : A) (k : A → result B) : (Ok a ≫= k) = k a.
Proof. reflexivity. Qed.

Lemma bind_Raise {A B} (e : exn) (k : A → result B) : (Raise e ≫= k) = Raise e.
Proof. reflexivity. Qed.

Lemma bind_OutOfFuel {A B} (k : A → result B) : (OutOfFuel ≫= k) = OutOfFuel.
Proof. reflexivity. Qed.

(** A step of a computation that did not end in a value ends it. *)
Ltac not_Ok := rewrite ?bind_Raise, ?bind_OutOfFuel; intros; discriminate.

Lemma py_index_lt (len : nat) (i : Z) (n : nat) :
  py_index len i = Some n → (n < len)%nat.
Proof.
  unfold py_index. repeat case_bool_decide; intros; simplify_eq; lia.
Qed.

Lemma py_index_Z (len : nat) (i : Z) :
  0 ≤ i < Z.of_nat len → py_index len i = Some (Z.to_nat i).
Proof. intros Hi. unfold py_index. by rewrite bool_decide_eq_true_2. Qed.

Lemma py_get_lookup {A} (l : list A) (i : Z) (x : A) :
  0 ≤ i → l !! Z.to_nat i = Some x → py_get l i = Ok x.
Proof.
  intros Hi Hx. unfold py_get.
  rewrite py_index_Z by (apply lookup_lt_Some in Hx; lia).
  simpl. by rewrite Hx.
Qed.

Lemma py_set_Ok {A} (l l' : list A) (i : Z) (x : A) :
  py_set l i x = Ok l' →
  ∃ n, py_index (length l) i = Some n ∧ (n < length l)%nat ∧ l' = <[n:=x]> l.
Proof.
  unfold py_set. destruct (py_index (length l) i) as [n|] eqn:Hn; [|done].
  intros <-%Ok_inj. exists n. split; [done|]. split; [by eapply py_index_lt|done].
Qed.

Lemma py_get_insert_ne {A} (l : list A) (n : nat) (i : Z) (x : A) :
  0 ≤ i → n ≠ Z.to_nat i → py_get (<[n:=x]> l) i = py_get l i.
Proof.
  intros Hi Hne. unfold py_get, py_index. rewrite length_insert.
  case_bool_decide; [|by rewrite bool_decide_eq_false_2 by lia].
  simpl. by rewrite list_lookup_insert_ne.
Qed.

(** ** The position codec *)

Lemma decode_in_bounds (n : Z) :
  0 ≤ n ≤ 55 → 0 ≤ (decode_single_pos n).1 ≤ 6 ∧ 0 ≤ (decode_single_pos n).2 ≤ 7.
Proof.
  intros Hn. unfold decode_single_pos, N_COLS. simpl.
  Z.to_euclidean_division_equations. lia.
Qed.

Lemma encode_in_range (col row : Z) :
  0 ≤ col ≤ 6 → 0 ≤ row ≤ 7 → 0 ≤ encode_single_pos (col, row) ≤ 55.
Proof. unfold encode_single_pos, N_COLS. lia. Qed.

Lemma encode_decode (n : Z) : encode_single_pos (decode_single_pos n) = n.
Proof.
  unfold encode_single_pos, decode_single_pos, N_COLS.
  Z.to_euclidean_division_equations. lia.
Qed.

Lemma decode_encode (col row : Z) :
  0 ≤ col ≤ 6 → decode_single_pos (encode_single_pos (col, row)) = (col, row).
Proof.
  intros Hcol. unfold encode_single_pos, decode_single_pos, N_COLS.
  f_equal; Z.to_euclidean_division_equations; lia.
Qed.

(** C4. On their valid domains the codec's two functions are inverse to
    each other: every square index [n] in [0,55] decodes to a coordinate of
    the board that encodes back to [n], and every coordinate with column in
    [0,6] and row in [0,7] encodes to an index in [0,55] that decodes back to
    that coordinate. *)
Theorem codec_two_sided_inverse (n col row : Z) :
  0 ≤ n ≤ 55 → 0 ≤ col ≤ 6 → 0 ≤ row ≤ 7 →
  encode_single_pos (decode_single_pos n) = n
  ∧ decode_single_pos (encode_single_pos (col, row)) = (col, row)
  ∧ (0 ≤ (decode_single_pos n).1 ≤ 6 ∧ 0 ≤ (decode_single_pos n).2 ≤ 7)
  ∧ 0 ≤ encode_single_pos (col, row) ≤ 55.
Proof.
  intros Hn Hcol Hrow. split; [apply encode_decode|].
  split; [by apply decode_encode|].
  split; [by apply decode_in_bounds | by apply encode_in_range].
Qed.

Lemma codec_two_sided_inverse_witness :
  encode_single_pos (decode_single_pos 38) = 38
  ∧ decode_single_pos (encode_single_pos (3, 5)) = (3, 5)
  ∧ (0 ≤ (decode_single_pos 38).1 ≤ 6 ∧ 0 ≤ (decode_single_pos 38).2 ≤ 7)
  ∧ 0 ≤ encode_single_pos (3, 5) ≤ 55.
Proof. apply (codec_two_sided_inverse 38 3 5); lia. Defined.

(** ** The initial layout and validity *)

Lemma size_list_to_set_le (l : list Z) :
  (size (list_to_set (C := gset Z) l) ≤ length l)%nat.
Proof.
  induction l as [|x l IH]; [by rewrite list_to_set_nil, size_empty|].
  rewrite list_to_set_cons, size_union_alt.
  rewrite size_singleton.
  assert (size (list_to_set (C := gset Z) l ∖ {[x]}) ≤ size (list_to_set (C := gset Z) l))%nat
    as Hle.
  { apply subseteq_size. set_solver. }
  simpl length. lia.
Qed.

Lemma size_list_to_set_NoDup (l : list Z) :
  size (list_to_set (C := gset Z) l) = length l ↔ NoDup l.
Proof.
  split.
  - induction l as [|x l IH]; [constructor|].
    rewrite list_to_set_cons. simpl length.
    intros Hsz. pose proof (size_list_to_set_le l) as Hle.
    destruct (decide (x ∈ l)) as [Hin|Hnin].
    + assert ({[x]} ∪ list_to_set l = list_to_set (C := gset Z) l) as Heq.
      { set_solver. }
      rewrite Heq in Hsz. lia.
    + rewrite size_union in Hsz by set_solver.
      rewrite size_singleton in Hsz.
      constructor; [done|]. apply IH. lia.
  - intros Hnd. by apply size_list_to_set.
Qed.

Lemma range_check_spec (l : list Z) :
  forallb (λ pos, bool_decide (0 ≤ pos ≤ 55)) l = true ↔ Forall (λ pos, 0 ≤ pos ≤ 55) l.
Proof.
  induction l as [|x l IH]; simpl.
  - split; [constructor | done].
  - rewrite andb_true_iff, Forall_cons, bool_decide_eq_true, IH. done.
Qed.

(** [is_valid] holds exactly of the position arrays whose entries all lie
    in [0,55] and are pairwise distinct. *)
Lemma is_valid_spec (bs : BoardState) :
  is_valid bs = true ↔ Forall (λ pos, 0 ≤ pos ≤ 55) (state bs) ∧ NoDup (state bs).
Proof.
  unfold is_valid. rewrite <- range_check_spec, <- size_list_to_set_NoDup.
  destruct (forallb _ (state bs)); simpl; [|naive_solver].
  destruct (_ =? _)%nat eqn:Hsz; simpl.
  - apply Nat.eqb_eq in Hsz. done.
  - apply Nat.eqb_neq in Hsz. naive_solver.
Qed.

(** C7. A fresh board state holds the positions 1,2,3,4,5,3,50,51,52,53,54,52
    and is not valid: squares 3 and 52 each occur twice (pieces 2 and 5,
    pieces 8 and 11), so the positions are not pairwise distinct, although
    all of them lie in [0,55]. *)
Theorem initial_layout_not_valid :
  state BoardState_init = [1; 2; 3; 4; 5; 3; 50; 51; 52; 53; 54; 52]
  ∧ is_valid BoardState_init = false
  ∧ Forall (λ pos, 0 ≤ pos ≤ 55) (state BoardState_init)
  ∧ state BoardState_init !! 2%nat = state BoardState_init !! 5%nat
  ∧ state BoardState_init !! 8%nat = state BoardState_init !! 11%nat
  ∧ ¬ NoDup (state BoardState_init).
Proof.
  split; [reflexivity|].
  assert (is_valid BoardState_init = false) as Hinv.
  { vm_compute. reflexivity. }
  split; [exact Hinv|].
  assert (Forall (λ pos, 0 ≤ pos ≤ 55) (state BoardState_init)) as Hrange.
  { simpl. unfold initial_positions. repeat constructor; lia. }
  split; [exact Hrange|].
  split; [reflexivity|]. split; [reflexivity|].
  intros Hnd. assert (is_valid BoardState_init = true) as Hv.
  { by apply is_valid_spec. }
  congruence.
Qed.

(** ** Termination states *)

(** C8. On a board state of 12 positions, [is_termination_state] returns
    normally, and returns true exactly when the decoded row of piece 5 is 7
    or the decoded row of piece 11 is 0, that is when piece 5 stands on one
    of the squares 49..55 or piece 11 on one of the squares 0..6. *)
Theorem is_termination_state_spec (bs : BoardState) :
  length (state bs) = 12%nat →
  ∃ (p5 p11 : Z) (b : bool),
    state bs !! 5%nat = Some p5 ∧ state bs !! 11%nat = Some p11
    ∧ is_termination_state bs = Ok b
    ∧ (b = true ↔ (decode_single_pos p5).2 = 7 ∨ (decode_single_pos p11).2 = 0)
    ∧ (b = true ↔ 49 ≤ p5 ≤ 55 ∨ 0 ≤ p11 ≤ 6).
Proof.
  intros Hlen.
  destruct (lookup_lt_is_Some_2 (state bs) 5) as [p5 H5]; [lia|].
  destruct (lookup_lt_is_Some_2 (state bs) 11) as [p11 H11]; [lia|].
  exists p5, p11. unfold is_termination_state.
  rewrite (py_get_lookup (state bs) 5 p5), (py_get_lookup (state bs) 11 p11) by (done || lia).
  simpl.
  assert ((p5 `div` N_COLS = 7 ↔ 49 ≤ p5 ≤ 55) ∧ (p11 `div` N_COLS = 0 ↔ 0 ≤ p11 ≤ 6))
    as [Ha Hb].
  { unfold N_COLS. Z.to_euclidean_division_equations. lia. }
  repeat case_bool_decide; eexists; (split; [done|]); (split; [done|]);
    (split; [reflexivity|]); naive_solver.
Qed.

Lemma is_termination_state_spec_witness :
  ∃ (p5 p11 : Z) (b : bool),
    state BoardState_init !! 5%nat = Some p5 ∧ state BoardState_init !! 11%nat = Some p11
    ∧ is_termination_state BoardState_init = Ok b
    ∧ (b = true ↔ (decode_single_pos p5).2 = 7 ∨ (decode_single_pos p11).2 = 0)
    ∧ (b = true ↔ 49 ≤ p5 ≤ 55 ∨ 0 ≤ p11 ≤ 6).
Proof. apply (is_termination_state_spec BoardState_init). reflexivity. Defined.

(** ** The carrier's rays *)

Lemma py_slice_elem_of {A} (l : list A) (a b : Z) (x : A) :
  x ∈ py_slice l a b → x ∈ l.
Proof.
  unfold py_slice. intros Hx.
  apply (subseteq_drop (py_clamp (length l) a) l).
  by eapply subseteq_take.
Qed.

Lemma directions_cases (dcol drow : Z) :
  (dcol, drow) ∈ directions →
  (dcol = 1 ∨ dcol = -1 ∨ dcol = 0 ∧ (drow = 1 ∨ drow = -1))
  ∧ (drow = 1 ∨ drow = -1 ∨ drow = 0).
Proof.
  unfold directions. rewrite !elem_of_cons, elem_of_nil.
  intros Hd. repeat destruct Hd as [Hd|Hd]; try done; simplify_eq; lia.
Qed.

Lemma in_bounds_spec (col row : Z) :
  in_bounds col row = true ↔ (0 ≤ col ≤ 6 ∧ 0 ≤ row ≤ 7).
Proof.
  unfold in_bounds, N_COLS, N_ROWS.
  rewrite andb_true_iff, !bool_decide_eq_true. lia.
Qed.

(** A ray adds nothing: the scan stops at the first occupied square, and a
    square that is not occupied belongs to no slice of the positions. *)
Lemma ball_ray_adds_nothing fuel bs player_idx dcol drow cur_col cur_row valid_moves :
  ball_ray fuel bs player_idx dcol drow cur_col cur_row valid_moves = Ok valid_moves
  ∨ ball_ray fuel bs player_idx dcol drow cur_col cur_row valid_moves = OutOfFuel.
Proof.
  revert cur_col cur_row.
  induction fuel as [|fuel IH]; intros cur_col cur_row; simpl; [by right|].
  destruct (in_bounds cur_col cur_row); [|by left].
  case_bool_decide as Hocc; [by left|].
  rewrite bool_decide_eq_false_2; [apply IH|].
  intros Hin. apply Hocc. by eapply py_slice_elem_of.
Qed.

Lemma ball_ray_terminates fuel bs player_idx dcol drow cur_col cur_row valid_moves :
  (dcol, drow) ∈ directions →
  (in_bounds cur_col cur_row = true → steps_left dcol drow cur_col cur_row < Z.of_nat fuel) →
  (0 < fuel)%nat →
  ball_ray fuel bs player_idx dcol drow cur_col cur_row valid_moves ≠ OutOfFuel.
Proof.
  intros Hdir%directions_cases.
  revert cur_col cur_row valid_moves.
  induction fuel as [|fuel IH]; intros cur_col cur_row valid_moves Hsteps Hpos; [lia|].
  simpl. destruct (in_bounds cur_col cur_row) eqn:Hin; [|done].
  specialize (Hsteps eq_refl). apply in_bounds_spec in Hin.
  case_bool_decide; [done|].
  assert (1 ≤ steps_left dcol drow cur_col cur_row) as Hge.
  { unfold steps_left, N_COLS, N_ROWS. repeat case_bool_decide; lia. }
  apply IH; [|lia].
  intros Hin'%in_bounds_spec.
  unfold steps_left, N_COLS, N_ROWS in *. repeat case_bool_decide; lia.
Qed.

Lemma steps_left_bound (dcol drow col row : Z) :
  in_bounds col row = true → steps_left dcol drow col row < Z.of_nat ray_fuel.
Proof.
  intros Hin%in_bounds_spec.
  unfold steps_left, ray_fuel, N_COLS, N_ROWS. repeat case_bool_decide; lia.
Qed.

Lemma ball_ray_result fuel bs player_idx dcol drow cur_col cur_row valid_moves :
  (dcol, drow) ∈ directions →
  (ray_fuel ≤ fuel)%nat →
  ball_ray fuel bs player_idx dcol drow cur_col cur_row valid_moves = Ok valid_moves.
Proof.
  intros Hdir Hfuel.
  destruct (ball_ray_adds_nothing fuel bs player_idx dcol drow cur_col cur_row valid_moves)
    as [Hok|Hout]; [done|].
  exfalso. revert Hout. apply ball_ray_terminates; [done| |unfold ray_fuel in *; lia].
  intros Hin. pose proof (steps_left_bound dcol drow _ _ Hin). lia.
Qed.

Lemma for_each_rays fuel bs player_idx col row (dirs : list (Z * Z)) (valid_moves : gset Z) :
  dirs ⊆ directions →
  (ray_fuel ≤ fuel)%nat →
  for_each
    (λ valid_moves direction,
       let '(dcol, drow) := direction in
       ball_ray fuel bs player_idx dcol drow (col + dcol) (row + drow) valid_moves)
    dirs valid_moves = Ok valid_moves.
Proof.
  intros Hsub Hfuel. induction dirs as [|[dcol drow] dirs IH]; simpl; [done|].
  rewrite ball_ray_result; [|apply Hsub; left|done].
  simpl. apply IH. intros d Hd. apply Hsub. by right.
Qed.

(** With fuel for every ray, reading the carrier's coordinate is all that
    [single_ball_actions] does: it raises if that fails and returns the
    empty set otherwise. *)
Lemma single_ball_actions_fuel_eq fuel bs player_idx :
  (ray_fuel ≤ fuel)%nat →
  single_ball_actions_fuel fuel bs player_idx
  = (_ ← py_get (decode_state bs) (ball_idx player_idx); Ok ∅).
Proof.
  intros Hfuel. unfold single_ball_actions_fuel.
  destruct (py_get _ _) as [[col row]| |]; [|done..].
  rewrite !bind_Ok. cbv beta iota. by apply for_each_rays.
Qed.

Lemma single_ball_actions_fuel_empty fuel bs player_idx :
  (ray_fuel ≤ fuel)%nat →
  (Z.to_nat (ball_idx player_idx) < length (decode_state bs))%nat →
  single_ball_actions_fuel fuel bs player_idx = Ok ∅.
Proof.
  intros Hfuel Hlen. rewrite single_ball_actions_fuel_eq by done.
  destruct (lookup_lt_is_Some_2 _ _ Hlen) as [pos Hpos].
  rewrite (py_get_lookup _ _ pos); [done|unfold ball_idx; case_bool_decide; lia|done].
Qed.

(** More fuel than [ray_fuel] changes nothing. *)
Lemma single_ball_actions_fuel_enough fuel bs player_idx :
  (ray_fuel ≤ fuel)%nat →
  single_ball_actions_fuel fuel bs player_idx = single_ball_actions bs player_idx.
Proof.
  intros Hfuel. unfold single_ball_actions.
  by rewrite !single_ball_actions_fuel_eq.
Qed.

(** C3. On every board state of 12 positions whose decoded cache mirrors
    them, and for every player, [single_ball_actions] returns the empty set:
    every ray ends, within the fuel [ray_fuel] and with any more, without
    adding a destination. *)
Theorem single_ball_actions_empty (bs : BoardState) (player_idx : Z) (fuel : nat) :
  cache_coherent bs →
  length (state bs) = 12%nat →
  (ray_fuel ≤ fuel)%nat →
  single_ball_actions_fuel fuel bs player_idx = Ok ∅
  ∧ single_ball_actions bs player_idx = Ok ∅.
Proof.
  intros Hcache Hlen Hfuel.
  assert (single_ball_actions_fuel fuel bs player_idx = Ok ∅) as Hempty.
  { apply single_ball_actions_fuel_empty; [done|].
    rewrite Hcache, length_fmap, Hlen. unfold ball_idx. case_bool_decide; simpl; lia. }
  split; [done|]. by rewrite <- (single_ball_actions_fuel_enough fuel).
Qed.

Lemma single_ball_actions_empty_witness :
  single_ball_actions_fuel 20 BoardState_init 1 = Ok ∅
  ∧ single_ball_actions BoardState_init 1 = Ok ∅.
Proof.
  apply (single_ball_actions_empty BoardState_init 1 20);
    [reflexivity | reflexivity | vm_compute; lia].
Defined.

(** C1, evaluated on the initial layout for player 0.  Square 2 is next to
    the carrier's square 3 on its row and holds player 0's runner 1, so it is
    a destination in the specification's words; the code returns the empty
    set, which does not contain it. *)
Theorem single_ball_actions_misses_pass :
  spec_carrier_destination BoardState_init 0 2
  ∧ single_ball_actions BoardState_init 0 = Ok ∅
  ∧ ¬ (∀ dest actions,
         single_ball_actions BoardState_init 0 = Ok actions →
         (dest ∈ actions ↔ spec_carrier_destination BoardState_init 0 dest)).
Proof.
  assert (spec_carrier_destination BoardState_init 0 2) as Hspec.
  { exists 3, 0, (-1), 0, 1. split; [reflexivity|].
    split; [unfold directions; set_solver|].
    split; [lia|]. split; [reflexivity|]. split; [reflexivity|].
    split; [intros j Hj; lia|].
    unfold own_runners. simpl. set_solver. }
  assert (single_ball_actions BoardState_init 0 = Ok ∅) as Hcode.
  { apply (single_ball_actions_fuel_empty ray_fuel); [done|]. vm_compute. lia. }
  split; [done|]. split; [done|].
  intros Hiff. apply (Hiff 2 ∅ Hcode) in Hspec. set_solver.
Qed.

(** ** Runner moves *)

Lemma possible_moves_offsets (col row : Z) :
  possible_moves col row = (λ d, (col + d.1, row + d.2)) <$> knight_offsets.
Proof. reflexivity. Qed.

(** What the loop over the candidate moves collects. *)
Lemma foldl_piece_move_body bs (moves : list (Z * Z)) (valid_moves : gset Z) (dest : Z) :
  dest ∈ foldl (piece_move_body bs) valid_moves moves ↔
  dest ∈ valid_moves
  ∨ ∃ move, move ∈ moves ∧ in_bounds move.1 move.2 = true
            ∧ dest = encode_single_pos move ∧ dest ∉ state bs.
Proof.
  revert valid_moves. induction moves as [|[move_col move_row] moves IH]; intros valid_moves; simpl.
  - split; [by left|]. intros [?|(move & Hin & _)]; [done|]. by apply elem_of_nil in Hin.
  - rewrite IH. split.
    + intros [Hacc|(move & Hin & Hrest)].
      * destruct (in_bounds move_col move_row) eqn:Hb; [|by left].
        case_bool_decide as Hfree; [|by left].
        apply elem_of_union in Hacc as [->%elem_of_singleton|Hacc]; [|by left].
        right. exists (move_col, move_row). split; [left|done].
      * right. exists move. split; [by right|done].
    + intros [Hacc|(move & Hin & Hb & -> & Hfree)].
      * left. destruct (in_bounds move_col move_row); [|done].
        case_bool_decide; [|done]. apply elem_of_union. by right.
      * apply elem_of_cons in Hin as [->|Hin].
        -- left. simpl in Hb. rewrite Hb, bool_decide_eq_true_2 by done.
           apply elem_of_union. left. by apply elem_of_singleton.
        -- right. exists move. done.
Qed.

(** Every destination of a runner, wherever the decoded cache says the
    runner stands, is a free square of the board. *)
Lemma single_piece_actions_free bs piece_idx actions dest :
  single_piece_actions bs piece_idx = Ok actions →
  dest ∈ actions →
  0 ≤ dest ≤ 55 ∧ dest ∉ state bs.
Proof.
  unfold single_piece_actions.
  destruct (py_get _ _) as [[col row]| |]; [|done..].
  rewrite bind_Ok. intros <-%Ok_inj Hdest.
  apply foldl_piece_move_body in Hdest as [Hdest|([c r] & _ & Hb & -> & Hfree)].
  - by apply not_elem_of_empty in Hdest.
  - split; [|done]. apply in_bounds_spec in Hb. simpl in Hb.
    apply encode_in_range; lia.
Qed.

(** Where the decoded cache mirrors the positions, the destinations of the
    piece on square [pos] are the runner destinations of the specification. *)
Lemma single_piece_actions_char (bs : BoardState) (piece_idx pos : Z) :
  cache_coherent bs →
  0 ≤ piece_idx →
  state bs !! Z.to_nat piece_idx = Some pos →
  ∃ actions : gset Z,
    single_piece_actions bs piece_idx = Ok actions
    ∧ ∀ dest, dest ∈ actions ↔ spec_runner_destination bs pos dest.
Proof.
  intros Hcache Hidx Hpos. unfold single_piece_actions.
  rewrite (py_get_lookup _ _ (decode_single_pos pos));
    [|lia|by rewrite Hcache, list_lookup_fmap, Hpos].
  rewrite bind_Ok. destruct (decode_single_pos pos) as [col row] eqn:Hdec.
  eexists. split; [reflexivity|].
  intros dest. rewrite foldl_piece_move_body, possible_moves_offsets.
  unfold spec_runner_destination. rewrite Hdec. cbn [fst snd]. split.
  - intros [Hempty|(move & Hin & Hb & -> & Hfree)];
      [by apply not_elem_of_empty in Hempty|].
    apply list_elem_of_fmap in Hin as ([dcol drow] & -> & Hoff).
    exists dcol, drow. done.
  - intros (dcol & drow & Hoff & Hb & -> & Hfree). right.
    exists (col + dcol, row + drow). split; [|done].
    apply list_elem_of_fmap. by exists (dcol, drow).
Qed.



(** ** The legal action set *)

Section ValidActions.
Context {W V : Type}.
Implicit Types self : GameSimulator W V.

Lemma for_each_pieces self (offset_idx : Z) (l : list Z) (acc acts : gset Action) :
  for_each
    (λ valid_actions i,
       let piece_idx := offset_idx + i in
       piece_actions ← single_piece_actions (game_state self) piece_idx;
       Ok (set_map (D := gset Action) (λ action, (i, action)) piece_actions ∪ valid_actions))
    l acc = Ok acts →
  ∀ a, a ∈ acts ↔
    a ∈ acc
    ∨ ∃ piece_actions,
        a.1 ∈ l
        ∧ single_piece_actions (game_state self) (offset_idx + a.1) = Ok piece_actions
        ∧ a.2 ∈ piece_actions.
Proof.
  revert acc. induction l as [|i l IH]; intros acc; simpl.
  - intros <-%Ok_inj a. split; [by left|].
    intros [?|(? & Hin & _)]; [done|]. by apply elem_of_nil in Hin.
  - destruct (single_piece_actions (game_state self) (offset_idx + i))
      as [piece_actions| |] eqn:Hpiece; [|done..].
    rewrite !bind_Ok. intros Hrest a. rewrite (IH _ Hrest), elem_of_union, elem_of_map.
    split.
    + intros [[(dest & -> & Hdest)|Hacc]|(pa & Hin & Hpa & Hdest)].
      * right. exists piece_actions. split; [left|done].
      * by left.
      * right. exists pa. split; [by right|done].
    + intros [Hacc|(pa & Hin & Hpa & Hdest)].
      * left. by right.
      * apply elem_of_cons in Hin as [Heq|Hin].
        -- left. left. exists a.2. rewrite <- Heq. split; [by destruct a|].
           rewrite Heq in Hpa. congruence.
        -- right. exists pa. done.
Qed.

Lemma for_each_Ok {A B} (body : B → A → result B) (l : list A) (acc : B) :
  (∀ acc x, x ∈ l → ∃ acc', body acc x = Ok acc') →
  ∃ r, for_each body l acc = Ok r.
Proof.
  revert acc. induction l as [|x l IH]; intros acc Hbody; simpl; [by eexists|].
  destruct (Hbody acc x) as [acc' ->]; [left|].
  rewrite bind_Ok. apply IH. intros acc'' y Hy. apply Hbody. by right.
Qed.

Lemma single_piece_actions_Ok (bs : BoardState) (piece_idx : Z) :
  0 ≤ piece_idx < Z.of_nat (length (decode_state bs)) →
  ∃ actions, single_piece_actions bs piece_idx = Ok actions.
Proof.
  intros Hidx. unfold single_piece_actions.
  destruct (lookup_lt_is_Some_2 (decode_state bs) (Z.to_nat piece_idx)) as [[col row] Hpos];
    [lia|].
  rewrite (py_get_lookup _ _ (col, row)) by (done || lia).
  rewrite bind_Ok. by eexists.
Qed.

(** On a board of 12 pieces the legal actions of either player can always
    be generated. *)
Lemma generate_valid_actions_Ok self (player_idx : Z) :
  0 ≤ player_idx ≤ 1 →
  length (decode_state (game_state self)) = 12%nat →
  ∃ valid_actions, generate_valid_actions self player_idx = Ok valid_actions.
Proof.
  intros Hplayer Hlen. unfold generate_valid_actions. cbv zeta.
  match goal with
  | |- context [for_each ?body ?l ?acc] =>
      destruct (for_each_Ok body l acc) as [valid_actions Hpieces]
  end.
  { intros acc i Hi. rewrite !elem_of_cons, elem_of_nil in Hi.
    destruct (single_piece_actions_Ok (game_state self) (player_idx * 6 + i))
      as [actions Hactions]; [lia|].
    rewrite Hactions, bind_Ok. by eexists. }
  rewrite Hpieces, bind_Ok.
  unfold single_ball_actions. rewrite single_ball_actions_fuel_empty; [|done|].
  - rewrite bind_Ok. by eexists.
  - rewrite Hlen. unfold ball_idx. case_bool_decide; simpl; lia.
Qed.

(** The legal actions are runner moves and nothing else: every one of
    them names a runner, by a relative index 0..4, and one of its
    destinations. *)
Lemma generate_valid_actions_spec self (player_idx : Z) (acts : gset Action) :
  generate_valid_actions self player_idx = Ok acts →
  ∀ a, a ∈ acts ↔
    ∃ piece_actions,
      a.1 ∈ [0; 1; 2; 3; 4]
      ∧ single_piece_actions (game_state self) (player_idx * 6 + a.1) = Ok piece_actions
      ∧ a.2 ∈ piece_actions.
Proof.
  unfold generate_valid_actions.
  destruct (for_each _ _ _) as [valid_actions| |] eqn:Hpieces; [|done..].
  rewrite bind_Ok. unfold single_ball_actions.
  rewrite single_ball_actions_fuel_eq by done.
  destruct (py_get _ _) as [ball_pos| |]; [|done..].
  rewrite !bind_Ok. intros <-%Ok_inj a.
  rewrite set_map_empty, (left_id_L ∅ (∪)).
  rewrite (for_each_pieces _ _ _ _ _ Hpieces).
  split; [intros [Hempty|?]; [by apply not_elem_of_empty in Hempty|done] | by right].
Qed.

(** ** Validity is preserved *)

Lemma BoardState_update_state (bs : BoardState) (idx val : Z) (bs' : BoardState) :
  BoardState_update bs idx val = Ok bs' →
  ∃ n, py_index (length (state bs)) idx = Some n
       ∧ (n < length (state bs))%nat ∧ state bs' = <[n:=val]> (state bs).
Proof.
  unfold BoardState_update.
  destruct (py_index (length (state bs)) idx) as [n|] eqn:Hn; simpl or_raise; [|not_Ok].
  rewrite bind_Ok. destruct (int64 val); [|not_Ok]. rewrite bind_Ok.
  destruct (py_get _ _) as [m| |]; [|not_Ok..]. rewrite bind_Ok.
  destruct (py_set (decode_state bs) _ _) as [ds| |]; [|not_Ok..]. rewrite bind_Ok.
  intros <-%Ok_inj. exists n. split; [done|]. split; [by eapply py_index_lt|done].
Qed.

(** [update] keeps the decoded cache in step with the positions, and the
    number of pieces. *)
Lemma BoardState_update_coherent (bs : BoardState) (idx val : Z) (bs' : BoardState) :
  cache_coherent bs →
  BoardState_update bs idx val = Ok bs' →
  cache_coherent bs' ∧ length (state bs') = length (state bs).
Proof.
  unfold cache_coherent, BoardState_update. intros Hcache.
  destruct (py_index (length (state bs)) idx) as [n|] eqn:Hn; simpl or_raise; [|not_Ok].
  rewrite bind_Ok. destruct (int64 val); [|not_Ok]. rewrite bind_Ok.
  pose proof (py_index_lt _ _ _ Hn) as Hlt.
  unfold py_get. rewrite length_insert, Hn. simpl.
  rewrite list_lookup_insert_eq by done. simpl.
  unfold py_set. rewrite Hcache, length_fmap, Hn. simpl.
  intros <-%Ok_inj. simpl. by rewrite list_fmap_insert, length_insert.
Qed.

Lemma BoardState_init_coherent :
  cache_coherent BoardState_init ∧ length (state BoardState_init) = 12%nat.
Proof. split; reflexivity. Qed.

Lemma elem_of_insert_inv {A} (l : list A) (n : nat) (x y : A) :
  y ∈ <[n:=x]> l → y = x ∨ y ∈ l.
Proof.
  revert n. induction l as [|a l IH]; intros [|n]; simpl; try by right.
  - intros [->|Hy]%elem_of_cons; [by left|]. right. by right.
  - intros [->|Hy]%elem_of_cons; [right; left|].
    destruct (IH _ Hy); [by left|]. right. by right.
Qed.

Lemma NoDup_insert_fresh {A} (l : list A) (n : nat) (x : A) :
  NoDup l → x ∉ l → NoDup (<[n:=x]> l).
Proof.
  revert n. induction l as [|a l IH]; intros n Hnd Hx; [done|].
  apply NoDup_cons in Hnd as [Ha Hnd]. apply not_elem_of_cons in Hx as [Hxa Hx].
  destruct n as [|n]; simpl; apply NoDup_cons.
  - done.
  - split; [|by apply IH].
    intros [->|Hin]%elem_of_insert_inv; done.
Qed.

Lemma engine_step_valid self self' :
  engine_step self self' →
  is_valid (game_state self) = true →
  is_valid (game_state self') = true.
Proof.
  intros [player_idx valid_actions [idx pos] Hgen Hin Hupd].
  rewrite !is_valid_spec. intros [Hrange Hnd].
  apply (generate_valid_actions_spec _ _ _ Hgen) in Hin as (pa & _ & Hpa & Hdest).
  destruct (single_piece_actions_free _ _ _ _ Hpa Hdest) as [Hpos Hfree].
  unfold update in Hupd.
  destruct (BoardState_update _ _ _) as [bs'| |] eqn:Hbs; [|done..].
  rewrite bind_Ok in Hupd. apply Ok_inj in Hupd as <-. simpl.
  apply BoardState_update_state in Hbs as (n & _ & Hn & ->).
  split; [by apply Forall_insert | by apply NoDup_insert_fresh].
Qed.

(** C6. From a board state on which [is_valid] holds, every sequence of
    engine updates, each applying an action that [generate_valid_actions]
    gives for the player who moves, ends in a board state on which
    [is_valid] holds: the positions stay in [0,55] and pairwise
    distinct. *)
Theorem engine_updates_preserve_validity self self' :
  is_valid (game_state self) = true →
  rtc engine_step self self' →
  is_valid (game_state self') = true
  ∧ Forall (λ pos, 0 ≤ pos ≤ 55) (state (game_state self'))
  ∧ NoDup (state (game_state self')).
Proof.
  intros Hvalid Hsteps.
  assert (is_valid (game_state self') = true) as Hvalid'.
  { induction Hsteps as [|self mid self' Hstep _ IH]; [done|].
    apply IH. by eapply engine_step_valid. }
  split; [done|]. by apply is_valid_spec.
Qed.

End ValidActions.

Lemma engine_updates_preserve_validity_witness :
  is_valid (board_of [14; 2; 3; 4; 5; 10; 50; 51; 52; 53; 54; 45]) = true
  ∧ Forall (λ pos, 0 ≤ pos ≤ 55) [14; 2; 3; 4; 5; 10; 50; 51; 52; 53; 54; 45]
  ∧ NoDup [14; 2; 3; 4; 5; 10; 50; 51; 52; 53; 54; 45].
Proof.
  apply (engine_updates_preserve_validity (W := unit) (V := unit)
           {| game_state := board_of [1; 2; 3; 4; 5; 10; 50; 51; 52; 53; 54; 45];
              current_round := -1; players := [] |}
           {| game_state := board_of [14; 2; 3; 4; 5; 10; 50; 51; 52; 53; 54; 45];
              current_round := -1; players := [] |}).
  - vm_compute. reflexivity.
  - apply rtc_once.
    destruct (generate_valid_actions_Ok (W := unit) (V := unit)
                {| game_state := board_of [1; 2; 3; 4; 5; 10; 50; 51; 52; 53; 54; 45];
                   current_round := -1; players := [] |} 0)
      as [valid_actions Hgen]; [lia|reflexivity|].
    apply (EngineStep _ _ 0 valid_actions (0, 14)); [exact Hgen| |vm_compute; reflexivity].
    apply (generate_valid_actions_spec _ _ _ Hgen).
    destruct (single_piece_actions_char
                (board_of [1; 2; 3; 4; 5; 10; 50; 51; 52; 53; 54; 45]) 0 1)
      as (actions & Hactions & Hiff); [reflexivity|lia|reflexivity|].
    exists actions. split; [left|]. split; [exact Hactions|].
    apply Hiff. exists (-1), 2.
    split; [unfold knight_offsets; do 6 right; left|].
    split; [reflexivity|]. split; [reflexivity|].
    apply (bool_decide_eq_true_1 _). reflexivity.
Defined.

(** ** The turn loop *)

Section Run.
Context {W V : Type}.
Implicit Types self : GameSimulator W V.

(** [validate_action] has two ways to end: it returns true or it
    raises.  It never returns false. *)
Lemma validate_action_cases self (action : Action) (player_idx : Z) :
  validate_action self action player_idx = Ok true
  ∨ (∃ e, validate_action self action player_idx = Raise e)
  ∨ validate_action self action player_idx = OutOfFuel.
Proof.
  unfold validate_action.
  destruct (generate_valid_actions self player_idx) as [valid_actions| |].
  - rewrite bind_Ok. case_bool_decide; [right; left; by eexists | by left].
  - right. left. by eexists.
  - by right; right.
Qed.

Lemma validate_action_illegal self (action : Action) (player_idx : Z) valid_actions :
  generate_valid_actions self player_idx = Ok valid_actions →
  action ∉ valid_actions →
  validate_action self action player_idx = Raise (ValueError action player_idx).
Proof.
  intros Hgen Hnot. unfold validate_action.
  by rewrite Hgen, bind_Ok, bool_decide_eq_true_2.
Qed.

Lemma update_current_round self (action : Action) (player_idx : Z) self' :
  update self action player_idx = Ok self' →
  current_round self' = current_round self ∧ players self' = players self.
Proof.
  unfold update. destruct action as [idx pos].
  destruct (BoardState_update _ _ _) as [bs| |]; [|not_Ok..].
  rewrite bind_Ok. by intros <-%Ok_inj.
Qed.





(** *** The loop never returns *)

(** A legal action leaves both carriers where they are. *)
Lemma legal_update_termination self (action : Action) (player_idx : Z) self' :
  0 ≤ player_idx ≤ 1 →
  validate_action self action player_idx = Ok true →
  update self action player_idx = Ok self' →
  is_termination_state (game_state self') = is_termination_state (game_state self).
Proof.
  intros Hplayer Hvalid Hupd. unfold validate_action in Hvalid.
  destruct (generate_valid_actions self player_idx) as [valid_actions| |] eqn:Hgen;
    [|done..].
  rewrite bind_Ok in Hvalid. case_bool_decide as Hin; [done|].
  apply (generate_valid_actions_spec _ _ _ Hgen) in Hin as (_ & Hidx & _).
  destruct action as [idx pos]. unfold update in Hupd.
  destruct (BoardState_update _ _ _) as [bs'| |] eqn:Hbs; [|done..].
  rewrite bind_Ok in Hupd. apply Ok_inj in Hupd as <-. simpl in *.
  apply BoardState_update_state in Hbs as (n & Hn & _ & Hst).
  assert (0 ≤ idx ≤ 4) as Hrange.
  { rewrite !elem_of_cons, elem_of_nil in Hidx. lia. }
  assert (n = Z.to_nat (player_idx * 6 + idx)) as ->.
  { unfold py_index in Hn. repeat case_bool_decide; simplify_eq; lia. }
  unfold is_termination_state. rewrite Hst.
  rewrite !py_get_insert_ne by lia. done.
Qed.

(** Entered on a state that is not terminal, the loop never returns a
    result: no legal action moves a carrier, so no later state is
    terminal, and an illegal action raises. *)
Lemma run_loop_no_return (fuel : nat) self (player_idx : option Z) (w : W) outcome :
  is_termination_state (game_state self) ≠ Ok true →
  (run_loop fuel self player_idx w).2 ≠ Ok outcome.
Proof.
  revert self player_idx w.
  induction fuel as [|fuel IH]; intros self player_idx w Hterm; simpl.
  - by destruct (is_termination_state (game_state self)) as [[|]| |].
  - destruct (is_termination_state (game_state self)) as [[|]| |] eqn:Hstate; [done| |done..].
    destruct (py_get (players self) _) as [player| |]; [|done..].
    destruct (player w _) as [[action value] w'].
    match goal with
    | |- context [validate_action ?s ?a ?p] =>
        destruct (validate_action_cases s a p) as [Hv|[[e Hv]|Hv]]; rewrite Hv; [|done..]
    end.
    match goal with
    | |- context [update ?s ?a ?p] => destruct (update s a p) as [self'| |] eqn:Hupd
    end; [|done..].
    unfold emit. simpl. apply IH.
    assert (0 ≤ (current_round self + 1) `mod` 2 ≤ 1) as Hplayer.
    { pose proof (Z.mod_pos_bound (current_round self + 1) 2). lia. }
    rewrite (legal_update_termination _ _ _ _ Hplayer Hv Hupd).
    simpl. by rewrite Hstate.
Qed.

(** [run] never returns a result triple, whatever the simulator and the
    players: it raises, or it is still running when the fuel is spent. *)
Lemma run_no_return (fuel : nat) self (w : W) outcome :
  (run fuel self w).2 ≠ Ok outcome.
Proof.
  unfold run.
  destruct (is_termination_state (game_state self)) as [[|]| |] eqn:Hstate;
    [|apply run_loop_no_return; by rewrite Hstate..].
  destruct fuel; simpl; by rewrite Hstate.
Qed.

(** The first thing the loop does with an action that is not legal is to
    raise [ValueError], after printing the turn. *)
Lemma run_loop_illegal_action (fuel : nat) self (player_idx : option Z) (w w' : W)
    (player : Policy W V) (action : Action) (value : V) (valid_actions : gset Action) :
  let round := current_round self + 1 in
  is_termination_state (game_state self) = Ok false →
  py_get (players self) (round `mod` 2) = Ok player →
  player w (make_state (game_state self)) = ((action, value), w') →
  generate_valid_actions self (round `mod` 2) = Ok valid_actions →
  action ∉ valid_actions →
  run_loop (S fuel) self player_idx w
  = ([ {| log_round := round; log_player := round `mod` 2;
          log_state := state (game_state self);
          log_action := action; log_value := value |} ],
     Raise (ValueError action (round `mod` 2))).
Proof.
  intros round Hterm Hplayer Hpolicy Hgen Hnot. simpl.
  rewrite Hterm. fold round. rewrite Hplayer, Hpolicy.
  erewrite validate_action_illegal; [done|exact Hgen|done].
Qed.

End Run.

(** C2, evaluated on the first turn of a fresh game.  Player 0 proposes to
    move the carrier onto square 50, where a runner of player 1 stands; the
    action is not in the legal set.  [run] prints the turn and raises
    [ValueError]: it does not return the forfeit that names BLACK the winner,
    and it returns no result at all, with any fuel. *)
Theorem run_illegal_action_raises (fuel : nat) (other : Policy unit unit) :
  let self := GameSimulator_init [constant_policy (5, 50); other] in
  (∃ valid_actions,
     generate_valid_actions self 0 = Ok valid_actions ∧ (5, 50) ∉ valid_actions)
  ∧ run (S fuel) self tt
    = ([ {| log_round := 0; log_player := 0;
            log_state := [1; 2; 3; 4; 5; 3; 50; 51; 52; 53; 54; 52];
            log_action := (5, 50); log_value := tt |} ],
       Raise (ValueError (5, 50) 0))
  ∧ (run (S fuel) self tt).2 ≠ Ok (0, "BLACK", "White provided an invalid action").
Proof.
  intros self.
  destruct (generate_valid_actions_Ok self 0) as [valid_actions Hgen];
    [lia|reflexivity|].
  assert ((5, 50) ∉ valid_actions) as Hnot.
  { intros Hin. apply (generate_valid_actions_spec _ _ _ Hgen) in Hin as (_ & Hidx & _).
    simpl in Hidx. rewrite !elem_of_cons, elem_of_nil in Hidx. lia. }
  split; [by exists valid_actions|].
  split; [|apply run_no_return].
  unfold run.
  by apply (run_loop_illegal_action fuel self None tt tt (constant_policy (5, 50)) (5, 50) tt
              valid_actions).
Qed.

(** ** Determinism *)

Section Determinism.
Context {W1 W2 V : Type} (R : W1 → W2 → Prop).

Lemma py_get_Forall2 {A B} (P : A → B → Prop) (l1 : list A) (l2 : list B) (i : Z) :
  Forall2 P l1 l2 →
  match py_get l1 i, py_get l2 i with
  | Ok x, Ok y => P x y
  | Raise e1, Raise e2 => e1 = e2
  | _, _ => False
  end.
Proof.
  intros Hall. unfold py_get. rewrite <- (Forall2_length _ _ _ Hall).
  destruct (py_index (length l1) i) as [n|]; simpl; [|done].
  destruct (l1 !! n) as [x|] eqn:Hx; simpl.
  - destruct (Forall2_lookup_l _ _ _ _ _ Hall Hx) as (y & -> & Hxy). done.
  - apply lookup_ge_None in Hx. rewrite (Forall2_length _ _ _ Hall) in Hx.
    apply lookup_ge_None in Hx. by rewrite Hx.
Qed.

(** Two simulators on the same board and round, with players that answer
    alike, run alike: the same lines are printed and the call ends the
    same way, with the same fuel. *)
Lemma run_loop_alike (fuel : nat) (bs : BoardState) (round : Z)
    (players1 : list (Policy W1 V)) (players2 : list (Policy W2 V))
    (player_idx : option Z) (w1 : W1) (w2 : W2) :
  Forall2 (answer_alike R) players1 players2 →
  R w1 w2 →
  run_loop fuel {| game_state := bs; current_round := round; players := players1 |}
    player_idx w1
  = run_loop fuel {| game_state := bs; current_round := round; players := players2 |}
      player_idx w2.
Proof.
  intros Hplayers. revert bs round player_idx w1 w2.
  induction fuel as [|fuel IH]; intros bs round player_idx w1 w2 Hw; simpl; [done|].
  destruct (is_termination_state bs) as [[|]| |]; [done| |done..].
  pose proof (py_get_Forall2 _ _ _ ((round + 1) `mod` 2) Hplayers) as Hget.
  destruct (py_get players1 _) as [p1|e1|], (py_get players2 _) as [p2|e2|];
    try done; [|by subst].
  destruct (Hget w1 w2 (make_state bs) Hw) as [Hanswer Hw'].
  destruct (p1 w1 _) as [[action1 value1] w1'], (p2 w2 _) as [[action2 value2] w2'].
  simpl in Hanswer, Hw'. injection Hanswer as <- <-.
  change (validate_action {| game_state := bs; current_round := round + 1;
                             players := players2 |} action1 ((round + 1) `mod` 2))
    with (validate_action {| game_state := bs; current_round := round + 1;
                             players := players1 |} action1 ((round + 1) `mod` 2)).
  destruct (validate_action _ _ _) as [[|]| |]; [|done..].
  unfold update. destruct action1 as [idx pos]. simpl.
  destruct (BoardState_update bs _ pos) as [bs'| |]; [|done..].
  rewrite !bind_Ok. f_equal. by apply IH.
Qed.

(** C10. Two runs from the same board and round, whose players answer
    alike (equal action and value on equal snapshots, call after call),
    print the same turns and end the same way: the same round count and
    winner when they return, the same exception when they raise. *)
Theorem run_deterministic (fuel : nat) (bs : BoardState) (round : Z)
    (players1 : list (Policy W1 V)) (players2 : list (Policy W2 V))
    (w1 : W1) (w2 : W2) :
  Forall2 (answer_alike R) players1 players2 →
  R w1 w2 →
  run fuel {| game_state := bs; current_round := round; players := players1 |} w1
  = run fuel {| game_state := bs; current_round := round; players := players2 |} w2.
Proof. intros Hplayers Hw. unfold run. by apply run_loop_alike. Qed.

End Determinism.

Lemma run_deterministic_witness :
  run 2 (GameSimulator_init [constant_policy (0, 14); constant_policy (5, 3)]) tt
  = run 2 (GameSimulator_init [counting_policy (0, 14); counting_policy (5, 3)]) 7%nat.
Proof.
  apply (run_deterministic (λ _ _, True)).
  - repeat constructor.
  - exact I.
Defined.

(** * Further properties of the code *)

(** ** The codec on all integers *)

(** X1. Decoding then encoding gives back every integer, in range or not:
    the column of a decoded integer always lies in [0,6], and its row lies
    in [0,7] exactly when the integer is a square index of the board. *)
Theorem codec_round_trip_all_integers (n : Z) :
  encode_single_pos (decode_single_pos n) = n
  ∧ 0 ≤ (decode_single_pos n).1 ≤ 6
  ∧ (0 ≤ (decode_single_pos n).2 ≤ 7 ↔ 0 ≤ n ≤ 55).
Proof.
  split; [apply encode_decode|].
  unfold decode_single_pos, N_COLS. simpl.
  Z.to_euclidean_division_equations. lia.
Qed.

(** X2. Two coordinates whose columns lie in [0,6], whose rows lie between
    -2^60 and 2^60, and that encode to the same index are equal.  In that
    range every encoding fits in 64 bits, so nothing wraps.  The bound on
    the column is needed: seven columns further is the same index as one
    row further. *)
Theorem encode_injective_in_columns (col1 row1 col2 row2 : Z) :
  0 ≤ col1 ≤ 6 → 0 ≤ col2 ≤ 6 →
  - 2 ^ 60 ≤ row1 ≤ 2 ^ 60 → - 2 ^ 60 ≤ row2 ≤ 2 ^ 60 →
  encode_single_pos (col1, row1) = encode_single_pos (col2, row2) →
  (col1, row1) = (col2, row2)
  ∧ int64 (encode_single_pos (col1, row1)) = true
  ∧ int64 (encode_single_pos (col1 + 7, row1)) = true
  ∧ encode_single_pos (col1 + 7, row1) = encode_single_pos (col1, row1 + 1).
Proof.
  unfold encode_single_pos, int64, N_COLS.
  change (2 ^ 60) with 1152921504606846976.
  change (2 ^ 63) with 9223372036854775808.
  intros Hcol1 Hcol2 Hrow1 Hrow2 Heq.
  split; [f_equal; lia|].
  split; [apply bool_decide_eq_true_2; lia|].
  split; [apply bool_decide_eq_true_2; lia|lia].
Qed.

Lemma encode_injective_in_columns_witness :
  (3, 5) = (3, 5)
  ∧ int64 (encode_single_pos (3, 5)) = true
  ∧ int64 (encode_single_pos (3 + 7, 5)) = true
  ∧ encode_single_pos (3 + 7, 5) = encode_single_pos (3, 5 + 1).
Proof.
  apply (encode_injective_in_columns 3 5 3 5); [lia | lia | | | reflexivity];
    change (2 ^ 60) with 1152921504606846976; lia.
Defined.

(** X3. The snapshot that [make_state] builds has one coordinate per
    position, and encoding its coordinates gives back the position array,
    whatever integers the array holds. *)
Theorem make_state_encodes_back (bs : BoardState) :
  length (make_state bs) = length (state bs)
  ∧ encode_single_pos <$> make_state bs = state bs.
Proof.
  unfold make_state. split; [apply length_fmap|].
  rewrite <- list_fmap_compose. rewrite <- (list_fmap_id (state bs)) at 2.
  apply list_fmap_ext. intros i n _. apply encode_decode.
Qed.

(** ** Validity and termination on boards of any size *)

(** X4. [is_valid] is true exactly of the position arrays whose entries all
    lie in [0,55] and are pairwise distinct.  It does not count the pieces:
    an array of fewer than 12 positions, the empty one included, is valid. *)
Theorem is_valid_iff_range_and_distinct (bs : BoardState) :
  (is_valid bs = true ↔ Forall (λ pos, 0 ≤ pos ≤ 55) (state bs) ∧ NoDup (state bs))
  ∧ is_valid (board_of []) = true
  ∧ is_valid (board_of [7; 0; 55]) = true.
Proof.
  split; [apply is_valid_spec|].
  split; apply is_valid_spec; simpl; (split; [repeat constructor; lia|]).
  - constructor.
  - repeat constructor; set_solver.
Qed.

Lemma py_get_IndexError {A} (l : list A) (i : Z) :
  py_get l i = Raise IndexError ↔ ¬ (- Z.of_nat (length l) ≤ i < Z.of_nat (length l)).
Proof.
  unfold py_get, py_index. repeat case_bool_decide; simpl.
  - destruct (lookup_lt_is_Some_2 l (Z.to_nat i)) as [x ->]; [lia|]. simpl.
    split; [done|lia].
  - destruct (lookup_lt_is_Some_2 l (Z.to_nat (Z.of_nat (length l) + i))) as [x ->]; [lia|].
    simpl. split; [done|lia].
  - split; [lia|done].
Qed.

Lemma py_get_in_range {A} (l : list A) (i : Z) :
  - Z.of_nat (length l) ≤ i < Z.of_nat (length l) → ∃ x, py_get l i = Ok x.
Proof.
  intros Hi. unfold py_get, py_index. repeat case_bool_decide; simpl; [| |lia].
  - destruct (lookup_lt_is_Some_2 l (Z.to_nat i)) as [x ->]; [lia|]. by eexists.
  - destruct (lookup_lt_is_Some_2 l (Z.to_nat (Z.of_nat (length l) + i))) as [x ->]; [lia|].
    by eexists.
Qed.

Lemma py_get_out_of_range {A} (l : list A) (i : Z) :
  ¬ (- Z.of_nat (length l) ≤ i < Z.of_nat (length l)) → py_get l i = Raise IndexError.
Proof. apply py_get_IndexError. Qed.

(** X5. [is_termination_state] raises [IndexError] exactly on the position
    arrays of fewer than 12 entries, and returns a truth value on all the
    others. *)
Theorem is_termination_state_index_error (bs : BoardState) :
  (is_termination_state bs = Raise IndexError ↔ (length (state bs) < 12)%nat)
  ∧ ((12 ≤ length (state bs))%nat → ∃ b, is_termination_state bs = Ok b).
Proof.
  unfold is_termination_state.
  destruct (decide (12 ≤ length (state bs))%nat) as [Hlen|Hlen].
  - destruct (py_get_in_range (state bs) 5) as [p5 ->]; [lia|].
    destruct (py_get_in_range (state bs) 11) as [p11 ->]; [lia|].
    rewrite !bind_Ok. split.
    + split; [|lia]. repeat case_bool_decide; done.
    + intros _. repeat case_bool_decide; by eexists.
  - rewrite (py_get_out_of_range (state bs) 11) by lia.
    split; [|lia]. split; [lia|]. intros _.
    destruct (py_get (state bs) 5) as [p5|e|] eqn:H5; [done| |].
    + destruct (decide (- Z.of_nat (length (state bs)) ≤ 5 < Z.of_nat (length (state bs))))
        as [Hin|Hout].
      * destruct (py_get_in_range (state bs) 5 Hin) as [x Hx]. congruence.
      * rewrite (py_get_out_of_range _ _ Hout) in H5. by injection H5 as <-.
    + destruct (decide (- Z.of_nat (length (state bs)) ≤ 5 < Z.of_nat (length (state bs))))
        as [Hin|Hout].
      * destruct (py_get_in_range (state bs) 5 Hin) as [x Hx]. congruence.
      * rewrite (py_get_out_of_range _ _ Hout) in H5. done.
Qed.

(** ** Writing a position *)

Lemma py_index_None (len : nat) (i : Z) :
  py_index len i = None ↔ ¬ (- Z.of_nat len ≤ i < Z.of_nat len).
Proof. unfold py_index. repeat case_bool_decide; split; (done || lia). Qed.

Lemma py_index_negative (len : nat) (i : Z) :
  - Z.of_nat len ≤ i < 0 → py_index len i = py_index len (Z.of_nat len + i).
Proof.
  intros Hi. unfold py_index.
  rewrite (bool_decide_eq_false_2 (0 ≤ i < _)) by lia.
  rewrite (bool_decide_eq_true_2 (- _ ≤ i < 0)) by lia.
  by rewrite (bool_decide_eq_true_2 (0 ≤ _ + i < _)) by lia.
Qed.

Lemma py_get_insert_eq {A} (l : list A) (i : Z) (n : nat) (x : A) :
  py_index (length l) i = Some n → py_get (<[n:=x]> l) i = Ok x.
Proof.
  intros Hn. unfold py_get. rewrite length_insert, Hn. simpl.
  by rewrite list_lookup_insert_eq by (by eapply py_index_lt).
Qed.

Lemma py_get_insert_other {A} (l : list A) (i : Z) (n : nat) (x : A) :
  py_index (length l) i ≠ Some n → py_get (<[n:=x]> l) i = py_get l i.
Proof.
  intros Hn. unfold py_get. rewrite length_insert.
  destruct (py_index (length l) i) as [m|]; simpl; [|done].
  rewrite list_lookup_insert_ne; [done|congruence].
Qed.

Lemma py_set_intro {A} (l : list A) (i : Z) (n : nat) (x : A) :
  py_index (length l) i = Some n → py_set l i x = Ok (<[n:=x]> l).
Proof. intros Hn. unfold py_set. by rewrite Hn. Qed.

(** What a successful [update] has done, and when [update] succeeds. *)
Lemma BoardState_update_inv (bs : BoardState) (idx val : Z) (bs' : BoardState) :
  BoardState_update bs idx val = Ok bs' →
  ∃ n m,
    int64 val = true
    ∧ py_index (length (state bs)) idx = Some n
    ∧ py_index (length (decode_state bs)) idx = Some m
    ∧ bs' = {| state := <[n:=val]> (state bs);
               decode_state := <[m:=decode_single_pos val]> (decode_state bs) |}.
Proof.
  unfold BoardState_update.
  destruct (py_index (length (state bs)) idx) as [n|] eqn:Hn; simpl or_raise; [|not_Ok].
  rewrite bind_Ok. destruct (int64 val); [|not_Ok]. rewrite bind_Ok.
  rewrite (py_get_insert_eq _ _ _ _ Hn), bind_Ok.
  destruct (py_set (decode_state bs) _ _) as [ds| |] eqn:Hds; [|not_Ok..].
  rewrite bind_Ok. apply py_set_Ok in Hds as (m & Hm & _ & ->).
  intros <-%Ok_inj. by exists n, m.
Qed.

Lemma BoardState_update_intro (bs : BoardState) (idx val : Z) (n m : nat) :
  int64 val = true →
  py_index (length (state bs)) idx = Some n →
  py_index (length (decode_state bs)) idx = Some m →
  BoardState_update bs idx val
  = Ok {| state := <[n:=val]> (state bs);
          decode_state := <[m:=decode_single_pos val]> (decode_state bs) |}.
Proof.
  intros Hval Hn Hm. unfold BoardState_update. rewrite Hn, Hval.
  simpl or_raise. rewrite !bind_Ok.
  rewrite (py_get_insert_eq _ _ _ _ Hn), bind_Ok.
  by rewrite (py_set_intro _ _ _ _ Hm), bind_Ok.
Qed.

(** X6. After a successful [update] of index [idx] to [val], reading the
    positions at [idx] gives [val] and reading the decoded cache at [idx]
    gives its coordinate; both sequences keep their lengths, every other
    position reads as before, and a cache that mirrored the positions still
    mirrors them. *)
Theorem BoardState_update_read_back (bs : BoardState) (idx val : Z) (bs' : BoardState) :
  BoardState_update bs idx val = Ok bs' →
  py_get (state bs') idx = Ok val
  ∧ py_get (decode_state bs') idx = Ok (decode_single_pos val)
  ∧ length (state bs') = length (state bs)
  ∧ length (decode_state bs') = length (decode_state bs)
  ∧ (∀ j, py_index (length (state bs)) j ≠ py_index (length (state bs)) idx →
          py_get (state bs') j = py_get (state bs) j)
  ∧ (cache_coherent bs → cache_coherent bs').
Proof.
  intros Hupd.
  destruct (BoardState_update_inv _ _ _ _ Hupd) as (n & m & _ & Hn & Hm & ->). simpl.
  split; [by apply py_get_insert_eq|].
  split; [by apply py_get_insert_eq|].
  split; [apply length_insert|]. split; [apply length_insert|].
  split.
  - intros j Hj. apply py_get_insert_other. congruence.
  - intros Hcache. unfold cache_coherent in *. simpl.
    rewrite Hcache, length_fmap, Hn in Hm. injection Hm as <-.
    by rewrite Hcache, list_fmap_insert.
Qed.

Lemma BoardState_update_read_back_witness :
  ∃ bs',
    BoardState_update BoardState_init (-12) 14 = Ok bs'
    ∧ py_get (state bs') (-12) = Ok 14
    ∧ py_get (decode_state bs') (-12) = Ok (decode_single_pos 14)
    ∧ length (state bs') = length (state BoardState_init)
    ∧ length (decode_state bs') = length (decode_state BoardState_init)
    ∧ (∀ j, py_index (length (state BoardState_init)) j
            ≠ py_index (length (state BoardState_init)) (-12) →
            py_get (state bs') j = py_get (state BoardState_init) j)
    ∧ (cache_coherent BoardState_init → cache_coherent bs').
Proof.
  eexists. split; [reflexivity|].
  apply (BoardState_update_read_back BoardState_init (-12) 14). reflexivity.
Defined.

(** X7. Writing a 64-bit value at index [idx] of a board whose cache
    mirrors its positions succeeds exactly when [idx] lies in
    [-len, len), [len] being the number of positions, and raises
    [IndexError] otherwise; a negative index counts from the end, so that
    [idx] and [len + idx] do the same. *)
Theorem BoardState_update_index (bs : BoardState) (idx val : Z) :
  cache_coherent bs →
  int64 val = true →
  let len := Z.of_nat (length (state bs)) in
  ((∃ bs', BoardState_update bs idx val = Ok bs') ↔ - len ≤ idx < len)
  ∧ (BoardState_update bs idx val = Raise IndexError ↔ ¬ (- len ≤ idx < len))
  ∧ (- len ≤ idx < 0 → BoardState_update bs idx val = BoardState_update bs (len + idx) val).
Proof.
  intros Hcache Hval len.
  assert (length (decode_state bs) = length (state bs)) as Hlen.
  { by rewrite Hcache, length_fmap. }
  destruct (py_index (length (state bs)) idx) as [n|] eqn:Hn.
  - assert (- len ≤ idx < len) as Hin.
    { destruct (decide (- len ≤ idx < len)) as [|Hout]; [done|].
      apply py_index_None in Hout. congruence. }
    rewrite (BoardState_update_intro bs idx val n n) by (done || by rewrite Hlen).
    split; [split; [done|by eexists]|]. split; [split; [done|lia]|].
    intros Hneg. symmetry. apply BoardState_update_intro; [done|..].
    + by rewrite <- py_index_negative.
    + rewrite Hlen. by rewrite <- py_index_negative.
  - assert (¬ (- len ≤ idx < len)) as Hout by (by apply py_index_None).
    assert (BoardState_update bs idx val = Raise IndexError) as ->.
    { unfold BoardState_update. rewrite Hn. reflexivity. }
    split; [split; [by intros [? ?]|lia]|]. split; [done|lia].
Qed.

Lemma BoardState_update_index_witness :
  ((∃ bs', BoardState_update BoardState_init 12 7 = Ok bs') ↔ - 12 ≤ 12 < 12)
  ∧ (BoardState_update BoardState_init 12 7 = Raise IndexError ↔ ¬ (- 12 ≤ 12 < 12))
  ∧ (- 12 ≤ 12 < 0 →
     BoardState_update BoardState_init 12 7 = BoardState_update BoardState_init (12 + 12) 7).
Proof.
  apply (BoardState_update_index BoardState_init 12 7); reflexivity.
Defined.

(** X8. The last write wins: writing [v2] at an index that was just
    written gives the board that writing [v2] alone gives, and fails the
    same way when it fails. *)
Theorem BoardState_update_overwrite (bs : BoardState) (idx v1 v2 : Z) (bs1 : BoardState) :
  BoardState_update bs idx v1 = Ok bs1 →
  BoardState_update bs1 idx v2 = BoardState_update bs idx v2.
Proof.
  intros (n & m & _ & Hn & Hm & ->)%BoardState_update_inv.
  destruct (int64 v2) eqn:Hv2.
  - rewrite (BoardState_update_intro bs idx v2 n m) by done.
    rewrite (BoardState_update_intro _ idx v2 n m); simpl;
      [|done|by rewrite length_insert..].
    by rewrite !list_insert_insert_eq.
  - unfold BoardState_update. simpl. rewrite length_insert, Hn, Hv2. reflexivity.
Qed.

Lemma BoardState_update_overwrite_witness :
  BoardState_update (board_of [14; 2; 3; 4; 5; 3; 50; 51; 52; 53; 54; 52]) 0 16
  = BoardState_update BoardState_init 0 16.
Proof.
  apply (BoardState_update_overwrite BoardState_init 0 14 16). reflexivity.
Defined.

(** ** Runner moves on any board *)

Lemma py_get_negative {A} (l : list A) (i : Z) :
  - Z.of_nat (length l) ≤ i < 0 → py_get l i = py_get l (Z.of_nat (length l) + i).
Proof. intros Hi. unfold py_get. by rewrite py_index_negative. Qed.

(** X9. [single_piece_actions] returns a set exactly when the piece index
    lies in [-len, len), [len] being the length of the decoded cache, and
    raises [IndexError] otherwise; a negative index names a piece counted
    from the end. *)
Theorem single_piece_actions_index (bs : BoardState) (piece_idx : Z) :
  let len := Z.of_nat (length (decode_state bs)) in
  ((∃ actions, single_piece_actions bs piece_idx = Ok actions) ↔ - len ≤ piece_idx < len)
  ∧ (single_piece_actions bs piece_idx = Raise IndexError ↔ ¬ (- len ≤ piece_idx < len))
  ∧ (- len ≤ piece_idx < 0 →
     single_piece_actions bs piece_idx = single_piece_actions bs (len + piece_idx)).
Proof.
  intros len. unfold single_piece_actions.
  destruct (decide (- len ≤ piece_idx < len)) as [Hin|Hout].
  - destruct (py_get_in_range (decode_state bs) piece_idx Hin) as [[col row] Hget].
    split; [|split].
    + split; [done|]. intros _. rewrite Hget, bind_Ok. by eexists.
    + rewrite Hget, bind_Ok. split; [done|lia].
    + intros Hneg. by rewrite py_get_negative.
  - rewrite (py_get_out_of_range _ _ Hout), bind_Raise.
    split; [split; [by intros [? ?]|lia]|]. split; [done|lia].
Qed.

Lemma foldl_piece_move_body_size bs (moves : list (Z * Z)) (valid_moves : gset Z) :
  (size (foldl (piece_move_body bs) valid_moves moves) ≤ size valid_moves + length moves)%nat.
Proof.
  revert valid_moves. induction moves as [|[move_col move_row] moves IH];
    intros valid_moves; simpl; [lia|].
  etrans; [apply IH|].
  assert (size (piece_move_body bs valid_moves (move_col, move_row)) ≤ size valid_moves + 1)%nat
    as Hstep.
  { unfold piece_move_body. destruct (in_bounds move_col move_row); [|lia].
    case_bool_decide; [|lia].
    rewrite size_union_alt, size_singleton.
    assert (size (valid_moves ∖ {[encode_single_pos (move_col, move_row)]}) ≤ size valid_moves)%nat.
    { apply subseteq_size. set_solver. }
    lia. }
  simpl in Hstep. lia.
Qed.

(** X10. Whatever the decoded cache holds, a runner has at most 8
    destinations, and each of them is a square index in [0,55] that no
    piece occupies. *)
Theorem single_piece_actions_destinations (bs : BoardState) (piece_idx : Z)
    (actions : gset Z) :
  single_piece_actions bs piece_idx = Ok actions →
  (size actions ≤ 8)%nat
  ∧ ∀ dest, dest ∈ actions → 0 ≤ dest ≤ 55 ∧ dest ∉ state bs.
Proof.
  intros Hactions. split.
  - revert Hactions. unfold single_piece_actions.
    destruct (py_get _ _) as [[col row]| |]; [|not_Ok..].
    rewrite bind_Ok. intros <-%Ok_inj.
    etrans; [apply foldl_piece_move_body_size|].
    rewrite size_empty. unfold possible_moves. simpl. lia.
  - intros dest Hdest. by eapply single_piece_actions_free.
Qed.

Lemma single_piece_actions_destinations_witness :
  ∃ actions,
    single_piece_actions BoardState_init 3 = Ok actions
    ∧ (size actions ≤ 8)%nat
    ∧ ∀ dest, dest ∈ actions → 0 ≤ dest ≤ 55 ∧ dest ∉ state BoardState_init.
Proof.
  eexists. split; [reflexivity|].
  apply (single_piece_actions_destinations BoardState_init 3). reflexivity.
Defined.

Lemma knight_offsets_opposite (dcol drow : Z) :
  (dcol, drow) ∈ knight_offsets → (- dcol, - drow) ∈ knight_offsets.
Proof.
  unfold knight_offsets. rewrite !elem_of_cons, !elem_of_nil.
  intros Hd. repeat destruct Hd as [Hd|Hd]; try done; simplify_eq; simpl; tauto.
Qed.

(** X11. A runner move can be taken back.  On a valid board whose cache
    mirrors its positions, after a runner has moved to one of its
    destinations, the square it left is one of its destinations on the new
    board, and moving it there gives the old board again. *)
Theorem runner_move_reversible (bs bs' : BoardState) (piece_idx pos dest : Z)
    (actions : gset Z) :
  cache_coherent bs →
  is_valid bs = true →
  0 ≤ piece_idx →
  state bs !! Z.to_nat piece_idx = Some pos →
  single_piece_actions bs piece_idx = Ok actions →
  dest ∈ actions →
  BoardState_update bs piece_idx dest = Ok bs' →
  ∃ actions',
    single_piece_actions bs' piece_idx = Ok actions'
    ∧ pos ∈ actions'
    ∧ BoardState_update bs' piece_idx pos = Ok bs.
Proof.
  intros Hcache [Hrange Hnd]%is_valid_spec Hidx Hpos Hactions Hdest Hupd.
  pose proof (lookup_lt_Some _ _ _ Hpos) as Hlt.
  assert (0 ≤ pos ≤ 55) as Hposr.
  { rewrite Forall_forall in Hrange. apply Hrange. by eapply list_elem_of_lookup_2. }
  destruct (single_piece_actions_char bs piece_idx pos Hcache Hidx Hpos)
    as (actions0 & Hactions0 & Hiff).
  rewrite Hactions in Hactions0. apply Ok_inj in Hactions0 as <-.
  apply Hiff in Hdest as (dcol & drow & Hoff & Hb & Hdest & Hfree).
  assert (py_index (length (state bs)) piece_idx = Some (Z.to_nat piece_idx)) as Hn.
  { apply py_index_Z. lia. }
  destruct (BoardState_update_inv _ _ _ _ Hupd) as (n & m & _ & Hn' & Hm & ->).
  rewrite Hn in Hn'. injection Hn' as <-.
  assert (m = Z.to_nat piece_idx) as ->.
  { rewrite Hcache, length_fmap, Hn in Hm. by injection Hm. }
  set (new := {| state := <[Z.to_nat piece_idx:=dest]> (state bs);
                 decode_state := <[Z.to_nat piece_idx:=decode_single_pos dest]>
                                   (decode_state bs) |}).
  assert (cache_coherent new) as Hcache'.
  { unfold cache_coherent, new. simpl. by rewrite Hcache, list_fmap_insert. }
  destruct (single_piece_actions_char new piece_idx dest Hcache' Hidx) as (actions' & Hact' & Hiff').
  { unfold new. simpl. by apply list_lookup_insert_eq. }
  exists actions'. split; [done|]. split.
  - apply Hiff'. exists (- dcol), (- drow).
    split; [by apply knight_offsets_opposite|].
    apply in_bounds_spec in Hb.
    assert (decode_single_pos dest
            = ((decode_single_pos pos).1 + dcol, (decode_single_pos pos).2 + drow)) as Hdec.
    { rewrite Hdest. apply decode_encode. lia. }
    rewrite Hdec. simpl.
    replace ((pos `mod` N_COLS) + dcol + - dcol) with (pos `mod` N_COLS) by lia.
    replace ((pos `div` N_COLS) + drow + - drow) with (pos `div` N_COLS) by lia.
    pose proof (decode_in_bounds pos Hposr) as Hin. simpl in Hin.
    split; [by apply in_bounds_spec|].
    split; [symmetry; apply (encode_decode pos)|].
    unfold new. simpl. intros Hmem.
    apply list_elem_of_lookup in Hmem as [j Hj].
    destruct (decide (j = Z.to_nat piece_idx)) as [->|Hne].
    + rewrite list_lookup_insert_eq in Hj by done. injection Hj as ->.
      apply Hfree. by eapply list_elem_of_lookup_2.
    + rewrite list_lookup_insert_ne in Hj by done.
      apply Hne. by eapply NoDup_lookup.
  - rewrite (BoardState_update_intro new piece_idx pos (Z.to_nat piece_idx) (Z.to_nat piece_idx)).
    + unfold new. simpl. rewrite !list_insert_insert_eq.
      rewrite (list_insert_id (state bs)) by done.
      rewrite (list_insert_id (decode_state bs))
        by (by rewrite Hcache, list_lookup_fmap, Hpos).
      by destruct bs.
    + unfold int64. apply bool_decide_eq_true_2. lia.
    + unfold new. simpl. by rewrite length_insert.
    + unfold new. simpl. rewrite length_insert, Hcache, length_fmap. done.
Qed.

Lemma runner_move_reversible_witness :
  ∃ actions',
    single_piece_actions (board_of [14; 2; 3; 4; 5; 10; 50; 51; 52; 53; 54; 45]) 0 = Ok actions'
    ∧ 1 ∈ actions'
    ∧ BoardState_update (board_of [14; 2; 3; 4; 5; 10; 50; 51; 52; 53; 54; 45]) 0 1
      = Ok (board_of [1; 2; 3; 4; 5; 10; 50; 51; 52; 53; 54; 45]).
Proof.
  destruct (single_piece_actions_char
              (board_of [1; 2; 3; 4; 5; 10; 50; 51; 52; 53; 54; 45]) 0 1)
    as (actions & Hactions & Hiff); [reflexivity|lia|reflexivity|].
  apply (runner_move_reversible
           (board_of [1; 2; 3; 4; 5; 10; 50; 51; 52; 53; 54; 45])
           (board_of [14; 2; 3; 4; 5; 10; 50; 51; 52; 53; 54; 45])
           0 1 14 actions).
  - reflexivity.
  - vm_compute. reflexivity.
  - lia.
  - reflexivity.
  - exact Hactions.
  - apply Hiff. exists (-1), 2.
    split; [unfold knight_offsets; do 6 right; left|].
    split; [reflexivity|]. split; [reflexivity|].
    apply (bool_decide_eq_true_1 _). reflexivity.
  - reflexivity.
Defined.

(** ** The carrier on any board *)

(** X12. On every board and for every player index, [single_ball_actions]
    either returns the empty set or raises [IndexError]; it raises exactly
    when the decoded cache is too short to hold the carrier, which is piece
    5 for player index 0 and piece 11 for every other index. *)
Theorem single_ball_actions_any_board (bs : BoardState) (player_idx : Z) :
  let ball := if bool_decide (player_idx = 0) then 5%nat else 11%nat in
  (single_ball_actions bs player_idx = Ok ∅ ↔ (ball < length (decode_state bs))%nat)
  ∧ (single_ball_actions bs player_idx = Raise IndexError
     ↔ (length (decode_state bs) ≤ ball)%nat).
Proof.
  intros ball. unfold single_ball_actions.
  rewrite single_ball_actions_fuel_eq by done.
  assert (ball_idx player_idx = Z.of_nat ball) as ->.
  { unfold ball_idx, ball. by case_bool_decide. }
  destruct (decide (ball < length (decode_state bs))%nat) as [Hlt|Hge].
  - destruct (py_get_in_range (decode_state bs) (Z.of_nat ball)) as [pos ->]; [lia|].
    rewrite bind_Ok. split; [done|]. split; [done|lia].
  - rewrite py_get_out_of_range by lia. rewrite bind_Raise.
    split; [split; [done|lia]|]. split; [lia|done].
Qed.

(** ** The legal action set on any board *)

Section FurtherSimulator.
Context {W V : Type}.
Implicit Types self : GameSimulator W V.

Lemma generate_valid_actions_bounds self (player_idx : Z) (acts : gset Action) (a : Action) :
  generate_valid_actions self player_idx = Ok acts →
  a ∈ acts →
  0 ≤ a.1 ≤ 4 ∧ 0 ≤ a.2 ≤ 55 ∧ a.2 ∉ state (game_state self).
Proof.
  intros Hgen Hin.
  apply (generate_valid_actions_spec _ _ _ Hgen) in Hin as (pa & Hidx & Hpa & Hdest).
  split; [rewrite !elem_of_cons, elem_of_nil in Hidx; lia|].
  by eapply single_piece_actions_free.
Qed.

(** X13. Every legal action moves a runner: its relative index lies in
    0..4, never 5, and its destination is a square index in [0,55] that no
    piece occupies.  No action of the carrier is ever legal. *)
Theorem legal_actions_are_runner_moves self (player_idx : Z) (acts : gset Action) :
  generate_valid_actions self player_idx = Ok acts →
  (∀ idx dest, (idx, dest) ∈ acts →
     0 ≤ idx ≤ 4 ∧ 0 ≤ dest ≤ 55 ∧ dest ∉ state (game_state self))
  ∧ (∀ dest, (5, dest) ∉ acts).
Proof.
  intros Hgen. split.
  - intros idx dest Hin. by apply (generate_valid_actions_bounds _ _ _ _ Hgen) in Hin.
  - intros dest Hin. apply (generate_valid_actions_bounds _ _ _ _ Hgen) in Hin. simpl in Hin. lia.
Qed.

Lemma for_each_ext {A B} (f g : B → A → result B) (l : list A) (acc : B) :
  (∀ acc x, x ∈ l → f acc x = g acc x) →
  for_each f l acc = for_each g l acc.
Proof.
  revert acc. induction l as [|x l IH]; intros acc Hfg; simpl; [done|].
  rewrite Hfg by left. destruct (g acc x) as [acc'| |]; [|done..].
  rewrite !bind_Ok. apply IH. intros acc'' y Hy. apply Hfg. by right.
Qed.

Lemma single_piece_actions_in_range (bs : BoardState) (piece_idx : Z) :
  - Z.of_nat (length (decode_state bs)) ≤ piece_idx < Z.of_nat (length (decode_state bs)) →
  ∃ actions, single_piece_actions bs piece_idx = Ok actions.
Proof.
  intros Hidx. unfold single_piece_actions.
  destruct (py_get_in_range _ _ Hidx) as [[col row] ->]. rewrite bind_Ok. by eexists.
Qed.

(** X14. On a board of 12 pieces [generate_valid_actions] returns a set
    exactly for the player indices -2, -1, 0 and 1, and raises [IndexError]
    for every other index.  The negative indices are accepted because piece
    indices wrap around: index -1 gives the legal actions of player 1. *)
Theorem generate_valid_actions_player_range self (player_idx : Z) :
  length (decode_state (game_state self)) = 12%nat →
  ((∃ acts, generate_valid_actions self player_idx = Ok acts) ↔ -2 ≤ player_idx ≤ 1)
  ∧ (generate_valid_actions self player_idx = Raise IndexError ↔ ¬ (-2 ≤ player_idx ≤ 1))
  ∧ generate_valid_actions self (-1) = generate_valid_actions self 1.
Proof.
  intros Hlen.
  assert (generate_valid_actions self (-1) = generate_valid_actions self 1) as Halias.
  { unfold generate_valid_actions. cbv zeta.
    unfold single_ball_actions. rewrite !single_ball_actions_fuel_eq by done.
    f_equal. apply for_each_ext. intros acc i Hi.
    rewrite !elem_of_cons, elem_of_nil in Hi.
    unfold single_piece_actions.
    rewrite (py_get_negative _ (-1 * 6 + i)) by (rewrite Hlen; lia).
    rewrite Hlen. by replace (Z.of_nat 12 + (-1 * 6 + i)) with (1 * 6 + i) by lia. }
  destruct (decide (-2 ≤ player_idx ≤ 1)) as [Hin|Hout].
  - assert (∃ acts, generate_valid_actions self player_idx = Ok acts) as [acts Hacts].
    { unfold generate_valid_actions. cbv zeta.
      match goal with
      | |- context [for_each ?body ?l ?acc] =>
          destruct (for_each_Ok body l acc) as [valid_actions Hpieces]
      end.
      { intros acc i Hi. rewrite !elem_of_cons, elem_of_nil in Hi.
        destruct (single_piece_actions_in_range (game_state self) (player_idx * 6 + i))
          as [actions Hactions]; [rewrite Hlen; lia|].
        rewrite Hactions, bind_Ok. by eexists. }
      rewrite Hpieces, bind_Ok.
      unfold single_ball_actions. rewrite single_ball_actions_fuel_empty; [|done|].
      - rewrite bind_Ok. by eexists.
      - rewrite Hlen. unfold ball_idx. case_bool_decide; simpl; lia. }
    split; [split; [done|by eexists]|].
    split; [|done]. rewrite Hacts. split; [done|lia].
  - assert (generate_valid_actions self player_idx = Raise IndexError) as Hraise.
    { unfold generate_valid_actions. cbv zeta. simpl for_each.
      assert (single_piece_actions (game_state self) (player_idx * 6 + 0) = Raise IndexError)
        as ->; [|by rewrite !bind_Raise].
      unfold single_piece_actions.
      rewrite py_get_out_of_range by (rewrite Hlen; lia).
      by rewrite bind_Raise. }
    rewrite Hraise.
    split; [split; [by intros [? ?]|lia]|]. split; [done|done].
Qed.

End FurtherSimulator.

Lemma generate_valid_actions_player_range_witness :
  ((∃ acts, generate_valid_actions (GameSimulator_init ([] : list (Policy unit unit))) 2
            = Ok acts) ↔ -2 ≤ 2 ≤ 1)
  ∧ (generate_valid_actions (GameSimulator_init ([] : list (Policy unit unit))) 2
     = Raise IndexError ↔ ¬ (-2 ≤ 2 ≤ 1))
  ∧ generate_valid_actions (GameSimulator_init ([] : list (Policy unit unit))) (-1)
    = generate_valid_actions (GameSimulator_init ([] : list (Policy unit unit))) 1.
Proof.
  apply (generate_valid_actions_player_range
           (GameSimulator_init ([] : list (Policy unit unit))) 2).
  reflexivity.
Defined.

Lemma legal_actions_are_runner_moves_witness :
  ∃ acts,
    generate_valid_actions (GameSimulator_init ([] : list (Policy unit unit))) 0 = Ok acts
    ∧ (∀ idx dest, (idx, dest) ∈ acts →
         0 ≤ idx ≤ 4 ∧ 0 ≤ dest ≤ 55 ∧ dest ∉ state BoardState_init)
    ∧ (∀ dest, (5, dest) ∉ acts).
Proof.
  destruct (generate_valid_actions_Ok (GameSimulator_init ([] : list (Policy unit unit))) 0)
    as [acts Hgen]; [lia|reflexivity|].
  exists acts. split; [exact Hgen|].
  apply (legal_actions_are_runner_moves _ 0 acts Hgen).
Defined.

(** ** Applying a legal action *)

Lemma py_index_runner (player_idx idx : Z) (n : nat) :
  0 ≤ idx ≤ 4 →
  py_index 12 (player_idx * 6 + idx) = Some n →
  n ≠ 5%nat ∧ n ≠ 11%nat.
Proof.
  intros Hidx. unfold py_index.
  repeat case_bool_decide; intros Hn; simplify_eq; lia.
Qed.

Lemma is_termination_state_ext (bs bs' : BoardState) :
  length (state bs') = length (state bs) →
  state bs' !! 5%nat = state bs !! 5%nat →
  state bs' !! 11%nat = state bs !! 11%nat →
  is_termination_state bs' = is_termination_state bs.
Proof.
  intros Hlen H5 H11. unfold is_termination_state, py_get, py_index.
  rewrite Hlen. change (Z.to_nat 5) with 5%nat. change (Z.to_nat 11) with 11%nat.
  repeat case_bool_decide; try lia; simpl; by rewrite ?H5, ?H11.
Qed.

Section FurtherRun.
Context {W V : Type}.
Implicit Types self : GameSimulator W V.

Lemma validate_action_true_inv self (action : Action) (player_idx : Z) :
  validate_action self action player_idx = Ok true →
  ∃ acts, generate_valid_actions self player_idx = Ok acts ∧ action ∈ acts.
Proof.
  unfold validate_action.
  destruct (generate_valid_actions self player_idx) as [acts| |]; [|not_Ok..].
  rewrite bind_Ok. case_bool_decide as Hin; [done|]. intros _. by exists acts.
Qed.

Lemma legal_update_carriers self (action : Action) (player_idx : Z)
    (acts : gset Action) self' :
  length (state (game_state self)) = 12%nat →
  generate_valid_actions self player_idx = Ok acts →
  action ∈ acts →
  update self action player_idx = Ok self' →
  length (state (game_state self')) = 12%nat
  ∧ state (game_state self') !! 5%nat = state (game_state self) !! 5%nat
  ∧ state (game_state self') !! 11%nat = state (game_state self) !! 11%nat.
Proof.
  intros Hlen Hgen Hin Hupd.
  apply (generate_valid_actions_bounds _ _ _ _ Hgen) in Hin as (Hidx & _).
  destruct action as [idx pos]. unfold update in Hupd.
  destruct (BoardState_update _ _ _) as [bs'| |] eqn:Hbs; [|done..].
  rewrite bind_Ok in Hupd. apply Ok_inj in Hupd as <-. simpl in *.
  apply BoardState_update_inv in Hbs as (n & m & _ & Hn & _ & ->). simpl.
  rewrite Hlen in Hn. destruct (py_index_runner _ _ _ Hidx Hn) as [Hn5 Hn11].
  rewrite length_insert, !list_lookup_insert_ne by done. done.
Qed.

(** X16. A validated action can always be applied.  On a board of 12
    pieces whose cache mirrors its positions, and for player 0 or 1, an
    action that [validate_action] accepts is applied by [update] without an
    exception: the piece it names, a runner of that player, stands on the
    destination afterwards, the cache still mirrors the positions, and the
    round counter and the players are untouched. *)
Theorem legal_action_can_be_applied self (action : Action) (player_idx : Z) :
  cache_coherent (game_state self) →
  length (state (game_state self)) = 12%nat →
  0 ≤ player_idx ≤ 1 →
  validate_action self action player_idx = Ok true →
  ∃ self',
    update self action player_idx = Ok self'
    ∧ state (game_state self')
      = <[Z.to_nat (player_idx * 6 + action.1) := action.2]> (state (game_state self))
    ∧ 0 ≤ action.1 ≤ 4
    ∧ cache_coherent (game_state self')
    ∧ current_round self' = current_round self
    ∧ players self' = players self.
Proof.
  intros Hcache Hlen Hplayer (acts & Hgen & Hin)%validate_action_true_inv.
  apply (generate_valid_actions_bounds _ _ _ _ Hgen) in Hin as (Hidx & Hdest & _).
  destruct action as [idx pos]. simpl in *. unfold update.
  assert (py_index (length (state (game_state self))) (player_idx * 6 + idx)
          = Some (Z.to_nat (player_idx * 6 + idx))) as Hn.
  { apply py_index_Z. rewrite Hlen. lia. }
  rewrite (BoardState_update_intro _ _ _ (Z.to_nat (player_idx * 6 + idx))
             (Z.to_nat (player_idx * 6 + idx))).
  - rewrite bind_Ok. eexists. split; [reflexivity|]. simpl.
    split; [done|]. split; [done|]. split; [|done].
    unfold cache_coherent in *. simpl. by rewrite Hcache, list_fmap_insert.
  - unfold int64. apply bool_decide_eq_true_2. lia.
  - done.
  - by rewrite Hcache, length_fmap.
Qed.

Lemma engine_step_carriers self self' :
  length (state (game_state self)) = 12%nat →
  engine_step self self' →
  length (state (game_state self')) = 12%nat
  ∧ state (game_state self') !! 5%nat = state (game_state self) !! 5%nat
  ∧ state (game_state self') !! 11%nat = state (game_state self) !! 11%nat.
Proof.
  intros Hlen [player_idx acts action Hgen Hin Hupd].
  by eapply legal_update_carriers.
Qed.

(** X17. The carriers never move.  Along every sequence of engine updates
    from a board of 12 pieces, whatever player index each update is made
    for, pieces 5 and 11 stay on their squares, so the board is terminal at
    the end exactly if it was at the start. *)
Theorem carriers_never_move self self' :
  length (state (game_state self)) = 12%nat →
  rtc engine_step self self' →
  length (state (game_state self')) = 12%nat
  ∧ state (game_state self') !! 5%nat = state (game_state self) !! 5%nat
  ∧ state (game_state self') !! 11%nat = state (game_state self) !! 11%nat
  ∧ is_termination_state (game_state self') = is_termination_state (game_state self).
Proof.
  intros Hlen Hsteps.
  assert (length (state (game_state self')) = 12%nat
          ∧ state (game_state self') !! 5%nat = state (game_state self) !! 5%nat
          ∧ state (game_state self') !! 11%nat = state (game_state self) !! 11%nat)
    as (Hlen' & H5 & H11).
  { induction Hsteps as [|self mid self' Hstep _ IH]; [done|].
    destruct (engine_step_carriers _ _ Hlen Hstep) as (Hmid & H5 & H11).
    destruct (IH Hmid) as (Hlen' & H5' & H11').
    split; [done|]. split; congruence. }
  split; [done|]. split; [done|]. split; [done|].
  apply is_termination_state_ext; congruence.
Qed.

(** ** How [run] ends *)

(** X18. [run] never returns a result triple: whatever the board, the
    round counter, the players and the fuel, it raises an exception or is
    still looping when the fuel is spent.  No game is ever reported won, by
    reaching the back row or by forfeit. *)
Theorem run_never_returns (fuel : nat) self (w : W) (outcome : Outcome) :
  (run fuel self w).2 ≠ Ok outcome.
Proof.
  unfold run.
  destruct (is_termination_state (game_state self)) as [[|]| |] eqn:Hstate.
  - destruct fuel; simpl; by rewrite Hstate.
  - apply run_loop_no_return. by rewrite Hstate.
  - apply run_loop_no_return. by rewrite Hstate.
  - apply run_loop_no_return. by rewrite Hstate.
Qed.


Lemma legal_update_invariants self (action : Action) (player_idx : Z) :
  cache_coherent (game_state self) →
  length (state (game_state self)) = 12%nat →
  0 ≤ player_idx ≤ 1 →
  validate_action self action player_idx = Ok true →
  ∃ self',
    update self action player_idx = Ok self'
    ∧ cache_coherent (game_state self')
    ∧ length (state (game_state self')) = 12%nat
    ∧ players self' = players self
    ∧ is_termination_state (game_state self') = is_termination_state (game_state self).
Proof.
  intros Hcache Hlen Hplayer Hvalid.
  destruct (validate_action_true_inv _ _ _ Hvalid) as (acts & Hgen & Hin).
  apply (generate_valid_actions_bounds _ _ _ _ Hgen) in Hin as (Hidx & Hdest & _).
  destruct (update self action player_idx) as [self'| |] eqn:Hupd.
  - exists self'. split; [done|].
    pose proof (legal_update_termination _ _ _ _ Hplayer Hvalid Hupd) as Hterm.
    destruct (update_current_round _ _ _ _ Hupd) as [_ Hplayers].
    unfold update in Hupd. destruct action as [idx pos].
    destruct (BoardState_update _ _ _) as [bs'| |] eqn:Hbs; [|done..].
    rewrite bind_Ok in Hupd. apply Ok_inj in Hupd as <-. simpl in *.
    destruct (BoardState_update_coherent _ _ _ _ Hcache Hbs) as [Hcache' Hlen'].
    split; [done|]. split; [congruence|]. done.
  - exfalso. destruct action as [idx pos]. simpl in *. unfold update in Hupd.
    rewrite (BoardState_update_intro _ _ _ (Z.to_nat (player_idx * 6 + idx))
               (Z.to_nat (player_idx * 6 + idx))) in Hupd; [done|..].
    + unfold int64. apply bool_decide_eq_true_2. lia.
    + apply py_index_Z. rewrite Hlen. lia.
    + apply py_index_Z. rewrite Hcache, length_fmap, Hlen. lia.
  - exfalso. destruct action as [idx pos]. simpl in *. unfold update in Hupd.
    rewrite (BoardState_update_intro _ _ _ (Z.to_nat (player_idx * 6 + idx))
               (Z.to_nat (player_idx * 6 + idx))) in Hupd; [done|..].
    + unfold int64. apply bool_decide_eq_true_2. lia.
    + apply py_index_Z. rewrite Hlen. lia.
    + apply py_index_Z. rewrite Hcache, length_fmap, Hlen. lia.
Qed.

(** X22. A well-formed game can only stop on an illegal action.  Started
    on a board of 12 pieces that is not terminal and whose cache mirrors its
    positions, with two players, the loop of [run] raises no [IndexError],
    [OverflowError] or [UnboundLocalError]: either every turn the fuel pays
    for is played, or it raises the [ValueError] of the last turn printed,
    carrying that turn's action and player. *)
Theorem run_stops_only_on_illegal_action (fuel : nat) self (player_idx : option Z) (w : W) :
  cache_coherent (game_state self) →
  length (state (game_state self)) = 12%nat →
  length (players self) = 2%nat →
  is_termination_state (game_state self) = Ok false →
  ((run_loop fuel self player_idx w).2 = OutOfFuel
   ∧ length (run_loop fuel self player_idx w).1 = fuel)
  ∨ ∃ line,
      last (run_loop fuel self player_idx w).1 = Some line
      ∧ (run_loop fuel self player_idx w).2
        = Raise (ValueError (log_action line) (log_player line)).
Proof.
  revert self player_idx w.
  induction fuel as [|fuel IH]; intros self player_idx w Hcache Hlen Hplayers Hterm; simpl;
    rewrite Hterm; [by left|].
  assert (0 ≤ (current_round self + 1) `mod` 2 ≤ 1) as Hp.
  { pose proof (Z.mod_pos_bound (current_round self + 1) 2). lia. }
  destruct (py_get_in_range (players self) ((current_round self + 1) `mod` 2))
    as [player ->]; [rewrite Hplayers; lia|].
  destruct (player w _) as [[action value] w'].
  set (turn := {| game_state := game_state self; current_round := current_round self + 1;
                  players := players self |}).
  destruct (generate_valid_actions_Ok turn ((current_round self + 1) `mod` 2))
    as [acts Hgen]; [done|simpl; by rewrite Hcache, length_fmap|].
  destruct (decide (action ∈ acts)) as [Hin|Hnot].
  - assert (validate_action turn action ((current_round self + 1) `mod` 2) = Ok true) as Hv.
    { unfold validate_action. rewrite Hgen, bind_Ok. by rewrite bool_decide_eq_false_2 by tauto. }
    rewrite Hv.
    destruct (legal_update_invariants turn action _ Hcache Hlen Hp Hv)
      as (self' & -> & Hcache' & Hlen' & Hplayers' & Hterm').
    destruct (IH self' (Some ((current_round self + 1) `mod` 2)) w')
      as [[Hout Hcount]|(line & Hlast & Hout)];
      [done|done|by rewrite Hplayers'|by rewrite Hterm'| |].
    + left. unfold emit. simpl. by rewrite Hout, Hcount.
    + right. exists line. unfold emit. simpl. split; [|done].
      rewrite last_cons. by rewrite Hlast.
  - right. unfold validate_action. rewrite Hgen, bind_Ok.
    rewrite bool_decide_eq_true_2 by done. unfold emit. simpl. by eexists.
Qed.

Lemma legal_update_state self (action : Action) (player_idx : Z) self' :
  0 ≤ player_idx →
  validate_action self action player_idx = Ok true →
  update self action player_idx = Ok self' →
  0 ≤ action.1 ≤ 4
  ∧ state (game_state self')
    = <[Z.to_nat (player_idx * 6 + action.1) := action.2]> (state (game_state self)).
Proof.
  intros Hplayer (acts & Hgen & Hin)%validate_action_true_inv Hupd.
  apply (generate_valid_actions_bounds _ _ _ _ Hgen) in Hin as (Hidx & _).
  split; [done|].
  destruct action as [idx pos]. unfold update in Hupd.
  destruct (BoardState_update _ _ _) as [bs'| |] eqn:Hbs; [|done..].
  rewrite bind_Ok in Hupd. apply Ok_inj in Hupd as <-. simpl in *.
  apply BoardState_update_inv in Hbs as (n & m & _ & Hn & _ & ->). simpl.
  assert (n = Z.to_nat (player_idx * 6 + idx)) as ->; [|done].
  unfold py_index in Hn. repeat case_bool_decide; simplify_eq; lia.
Qed.

(** X23. The turns that [run] prints can be replayed.  The first board
    printed is the board the loop started on, and each later board is the
    board printed before it with the action printed before it applied: the
    runner of that turn's player named by the action stands on the action's
    destination.  Every action that is followed by another turn names a
    runner, by a relative index in 0..4. *)
Theorem run_log_replays (fuel : nat) self (player_idx : option Z) (w : W) :
  (∀ line, (run_loop fuel self player_idx w).1 !! 0%nat = Some line →
     log_state line = state (game_state self))
  ∧ (∀ (i : nat) line next,
       (run_loop fuel self player_idx w).1 !! i = Some line →
       (run_loop fuel self player_idx w).1 !! S i = Some next →
       0 ≤ (log_action line).1 ≤ 4
       ∧ log_state next
         = <[Z.to_nat (log_player line * 6 + (log_action line).1) := (log_action line).2]>
             (log_state line)).
Proof.
  revert self player_idx w.
  induction fuel as [|fuel IH]; intros self player_idx w; simpl.
  - destruct (is_termination_state (game_state self)) as [[|]| |];
      try destruct player_idx as [p|]; try case_bool_decide; simpl; by split.
  - destruct (is_termination_state (game_state self)) as [[|]| |];
      [destruct player_idx as [p|]; try case_bool_decide| |..]; simpl; try by split.
    destruct (py_get (players self) _) as [player| |]; simpl; try by split.
    destruct (player w _) as [[action value] w'].
    match goal with
    | |- context [validate_action ?s ?a ?p] =>
        destruct (validate_action_cases s a p) as [Hv|[[e Hv]|Hv]]; rewrite Hv
    end.
    2,3: (unfold emit; simpl; split;
          [by intros line [= <-] | by intros [|i] line next Hline Hnext]).
    match goal with
    | |- context [update ?s ?a ?p] => destruct (update s a p) as [self'| |] eqn:Hupd
    end.
    2,3: (unfold emit; simpl; split;
          [by intros line [= <-] | by intros [|i] line next Hline Hnext]).
    assert (0 ≤ (current_round self + 1) `mod` 2) as Hp.
    { pose proof (Z.mod_pos_bound (current_round self + 1) 2). lia. }
    destruct (legal_update_state _ _ _ _ Hp Hv Hupd) as [Hidx Hstate]. simpl in Hstate.
    destruct (IH self' (Some ((current_round self + 1) `mod` 2)) w') as [IHfirst IHnext].
    unfold emit. simpl. split; [by intros line [= <-]|].
    intros [|i] line next Hline Hnext; simpl in Hline, Hnext.
    + injection Hline as <-. simpl. split; [done|].
      by rewrite (IHfirst next Hnext).
    + by apply (IHnext i).
Qed.

End FurtherRun.

Lemma initial_runner_action {W V : Type} (players : list (Policy W V)) (acts : gset Action) :
  generate_valid_actions (GameSimulator_init players) 0 = Ok acts → (0, 14) ∈ acts.
Proof.
  intros Hgen. apply (generate_valid_actions_spec _ _ _ Hgen).
  destruct (single_piece_actions_char BoardState_init 0 1)
    as (actions & Hactions & Hiff); [reflexivity|lia|reflexivity|].
  exists actions. split; [left|]. split; [exact Hactions|].
  apply Hiff. exists (-1), 2.
  split; [unfold knight_offsets; do 6 right; left|].
  split; [reflexivity|]. split; [reflexivity|].
  apply (bool_decide_eq_true_1 _). reflexivity.
Qed.

Lemma initial_action_legal {W V : Type} (players : list (Policy W V)) :
  validate_action (GameSimulator_init players) (0, 14) 0 = Ok true.
Proof.
  destruct (generate_valid_actions_Ok (GameSimulator_init players) 0)
    as [acts Hgen]; [lia|reflexivity|].
  unfold validate_action. rewrite Hgen, bind_Ok.
  rewrite bool_decide_eq_false_2; [done|].
  intros Hnot. apply Hnot. by eapply initial_runner_action.
Qed.

Lemma legal_action_can_be_applied_witness :
  ∃ self' : GameSimulator unit unit,
    update (GameSimulator_init []) (0, 14) 0 = Ok self'
    ∧ state (game_state self')
      = <[Z.to_nat (0 * 6 + (0, 14).1) := (0, 14).2]> (state BoardState_init)
    ∧ 0 ≤ (0, 14).1 ≤ 4
    ∧ cache_coherent (game_state self')
    ∧ current_round self' = -1
    ∧ players self' = [].
Proof.
  apply (legal_action_can_be_applied (GameSimulator_init []) (0, 14) 0).
  - reflexivity.
  - reflexivity.
  - lia.
  - apply initial_action_legal.
Defined.

Lemma carriers_never_move_witness :
  length [14; 2; 3; 4; 5; 3; 50; 51; 52; 53; 54; 52] = 12%nat
  ∧ [14; 2; 3; 4; 5; 3; 50; 51; 52; 53; 54; 52] !! 5%nat = state BoardState_init !! 5%nat
  ∧ [14; 2; 3; 4; 5; 3; 50; 51; 52; 53; 54; 52] !! 11%nat = state BoardState_init !! 11%nat
  ∧ is_termination_state (board_of [14; 2; 3; 4; 5; 3; 50; 51; 52; 53; 54; 52])
    = is_termination_state BoardState_init.
Proof.
  apply (carriers_never_move (W := unit) (V := unit) (GameSimulator_init [])
           {| game_state := board_of [14; 2; 3; 4; 5; 3; 50; 51; 52; 53; 54; 52];
              current_round := -1; players := [] |}).
  - reflexivity.
  - apply rtc_once.
    destruct (generate_valid_actions_Ok (W := unit) (V := unit) (GameSimulator_init []) 0)
      as [acts Hgen]; [lia|reflexivity|].
    apply (EngineStep _ _ 0 acts (0, 14)); [exact Hgen| |vm_compute; reflexivity].
    by eapply initial_runner_action.
Defined.


Lemma run_stops_only_on_illegal_action_witness :
  ((run_loop 2 opening_game None tt).2 = OutOfFuel
   ∧ length (run_loop 2 opening_game None tt).1 = 2%nat)
  ∨ ∃ line,
      last (run_loop 2 opening_game None tt).1 = Some line
      ∧ (run_loop 2 opening_game None tt).2
        = Raise (ValueError (log_action line) (log_player line)).
Proof.
  apply (run_stops_only_on_illegal_action 2 opening_game None tt); reflexivity.
Defined.

(** ** The turns of a game and its end *)

Section TurnsPlayed.
Context {W V : Type}.
Implicit Types self : GameSimulator W V.



End TurnsPlayed.

